(** * Layout core of the resume builder (app.py)

    A shallow embedding of the text wrapper [split_text], the divider
    renderer [draw_gradient_line], the section-header helper
    [add_section_header], the layout engine [generate_pdf] and the
    grammar-correction wrapper [correct_text], together with the
    properties the specification states about them. *)

From Stdlib Require Import ZArith NArith QArith Bool Lia Ascii String List Sorted
  Permutation.
Import ListNotations.

Local Open Scope Z_scope.

(** ** Python strings

    A Python [str] is a sequence of Unicode code points; [len] counts
    code points, and [split] / [strip] test each code point for
    whitespace.  A string is therefore a list of code points. *)

Definition char := N.
Definition str := list char.

(** An ASCII literal of the source, as a [str]. *)
Definition lit (s : string) : str :=
  List.map N_of_ascii (list_ascii_of_string s).

(** The en dash U+2013 that the date templates contain. *)
Definition en_dash : char := 8211%N.

(** [len(s)]. *)
Definition len (s : str) : Z := Z.of_nat (List.length s).

(** Truth value of a string or a list: [if s:] holds exactly for
    non-empty [s]. *)
Definition truthy {A : Type} (s : list A) : bool :=
  match s with [] => false | _ :: _ => true end.

(** Whitespace as [str.split()] and [str.strip()] see it: the code
    points for which [str.isspace] holds. *)
Definition is_space (c : char) : bool :=
  let between lo hi := (N.leb lo c && N.leb c hi)%bool in
  (between 9 13 || between 28 32 || N.eqb c 133 || N.eqb c 160
   || N.eqb c 5760 || between 8192 8202 || between 8232 8233
   || N.eqb c 8239 || N.eqb c 8287 || N.eqb c 12288)%N%bool.

(** [s.lstrip()], [s.rstrip()] and [s.strip()]. *)
Fixpoint lstrip (s : str) : str :=
  match s with
  | [] => []
  | c :: s' => if is_space c then lstrip s' else s
  end.

Definition rstrip (s : str) : str := rev (lstrip (rev s)).

Definition strip (s : str) : str := rstrip (lstrip s).

(** [s.split()]: the maximal runs of non-whitespace code points, in
    order.  [cur] holds the run being read, most recent code point
    first. *)
Fixpoint split_from (cur : str) (s : str) : list str :=
  match s with
  | [] => if truthy cur then [rev cur] else []
  | c :: s' =>
      if is_space c
      then (if truthy cur then rev cur :: split_from [] s'
            else split_from [] s')
      else split_from (c :: cur) s'
  end.

Definition split (s : str) : list str := split_from [] s.

(** [sep.join(items)]. *)
Fixpoint join (sep : str) (items : list str) : str :=
  match items with
  | [] => []
  | [x] => x
  | x :: rest => x ++ sep ++ join sep rest
  end.

(** ** Text wrapper: [split_text] *)

(** One iteration of the loop [for word in words] of [split_text]; the
    loop state is the pair [(lines, current)]. *)
Definition split_text_step (max_width : Z) (st : list str * str) (word : str)
  : list str * str :=
  let '(lines, current) := st in
  let test := current ++ (if truthy current then lit " " else lit "") ++ word in
  if len test * 5 >? max_width
  then (lines ++ [current], word)
  else (lines, test).

(** The final [if current: lines.append(current)]. *)
Definition split_text_flush (st : list str * str) : list str :=
  let '(lines, current) := st in
  if truthy current then lines ++ [current] else lines.

Definition split_text (text : str) (max_width : Z) : list str :=
  let words := split text in
  split_text_flush (fold_left (split_text_step max_width) words ([], lit "")).

(** A token: a non-empty string without whitespace. *)
Definition token (t : str) : Prop :=
  t <> [] /\ Forall (fun c => is_space c = false) t.

(** A line that consists of one token whose estimated width exceeds the
    budget. *)
Definition single_overlong_token (max_width : Z) (line : str) : Prop :=
  split line = [line] /\ max_width < len line * 5.

(** ** The canvas

    ReportLab's canvas is the output sink: the layout code only calls
    its methods and never reads anything back.  A canvas is modelled by
    the file it was opened on, its page size and the calls it received,
    oldest first. *)

(** [colors.Color(r, g, b)]. *)
Record Color := mkColor { red : Q; green : Q; blue : Q }.

Definition colors_black : Color := mkColor 0 0 0.

(** [LinearGradient(x0, y0, x1, y1, stops)], [Rect(...)] and
    [Drawing(width, height)] of [reportlab.graphics.shapes]. *)
Record LinearGradient := mkLinearGradient {
  lg_x0 : Z; lg_y0 : Z; lg_x1 : Z; lg_y1 : Z;
  lg_stops : list (Z * Color)
}.

Record Rect := mkRect {
  rect_x : Z; rect_y : Z; rect_width : Z; rect_height : Z;
  fillColor : LinearGradient; strokeWidth : Z
}.

Record Drawing := mkDrawing {
  drawing_width : Z; drawing_height : Z; contents : list Rect
}.

Inductive canvas_call :=
| setFont (psfontname : string) (size : Z)
| setFillColor (aColor : Color)
| drawString (x y : Z) (text : str)
| rect (x y width height : Z) (fill stroke : Z)
| renderPDF_draw (d : Drawing) (x y : Z)
| save.

Record Canvas := mkCanvas {
  filename : str;
  pagesize : Z * Z;
  calls : list canvas_call
}.

Definition canvas_do (k : canvas_call) (c : Canvas) : Canvas :=
  mkCanvas (filename c) (pagesize c) (calls c ++ [k]).

(** ** Divider renderer: [draw_gradient_line]

    [GRADIENT_SUPPORTED] is the module-level flag set once by the guarded
    import.  The canvas is changed in place by the source, so the model
    returns it next to the returned number. *)
Definition draw_gradient_line (GRADIENT_SUPPORTED : bool)
    (c : Canvas) (y width height : Z) : Z * Canvas :=
  let c' :=
    if GRADIENT_SUPPORTED then
      let gradient :=
        mkLinearGradient 0 0 width 0
          [ (0, mkColor 0.5 0.95 0.75);
            (1, mkColor 0.2 0.6 1.0) ] in
      let r := mkRect 0 0 width height gradient 0 in
      let d := mkDrawing width height [r] in
      canvas_do (renderPDF_draw d 50 (y - height)) c
    else
      canvas_do (rect 50 (y - height) width height 1 0)
        (canvas_do (setFillColor (mkColor 0.3 0.8 0.9)) c) in
  (height + 2, c').

(** ** The resume document

    The request body after [correct_resume]: every field is a string
    (or a list) and may be absent; [None] is an absent key, and
    [dict_get o d] is [d.get(key, default)]. *)
Definition dict_get {A : Type} (o : option A) (default : A) : A :=
  match o with Some v => v | None => default end.

Record Personal := mkPersonal {
  name : option str; email : option str;
  phone : option str; address : option str
}.

Record Experience := mkExperience {
  position : option str; company : option str;
  exp_startDate : option str; exp_endDate : option str;
  exp_description : option str
}.

Record Education := mkEducation {
  degree : option str; institution : option str;
  edu_startDate : option str; edu_endDate : option str;
  edu_description : option str
}.

Record Resume := mkResume {
  personal : option Personal;
  summary : option str;
  skills : option (list str);
  experience : option (list Experience);
  education : option (list Education)
}.

Definition empty_personal : Personal := mkPersonal None None None None.

(** ** Layout state

    [generate_pdf] owns two pieces of state: its local variable [y] and
    the canvas [c].  [subtracted] records, most recent first, the amount
    of every [y -= amount] executed so far. *)
Record Layout := mkLayout {
  y : Z;
  subtracted : list Z;
  c : Canvas
}.

Definition M (A : Type) : Type := Layout -> A * Layout.

Definition ret {A : Type} (a : A) : M A := fun st => (a, st).

Definition bind {A B : Type} (m : M A) (k : A -> M B) : M B :=
  fun st => let '(a, st') := m st in k a st'.

Notation "x <- m ;; k" := (bind m (fun x => k))
  (at level 61, m at next level, right associativity).
Notation "m ;; k" := (bind m (fun _ => k))
  (at level 61, right associativity).

Definition exec {A : Type} (m : M A) (st : Layout) : Layout := snd (m st).

(** Read [y]. *)
Definition get_y : M Z := fun st => (y st, st).

(** [y -= amount]. *)
Definition sub_y (amount : Z) : M unit :=
  fun st => (tt, mkLayout (y st - amount) (amount :: subtracted st) (c st)).

(** A method call on the canvas [c]. *)
Definition call (k : canvas_call) : M unit :=
  fun st => (tt, mkLayout (y st) (subtracted st) (canvas_do k (c st))).

(** A function that receives the canvas and returns a value; it cannot
    reach [y]. *)
Definition with_canvas {A : Type} (f : Canvas -> A * Canvas) : M A :=
  fun st => let '(a, c') := f (c st) in (a, mkLayout (y st) (subtracted st) c').

(** [if b: body]. *)
Definition when (b : bool) (body : M unit) : M unit :=
  if b then body else ret tt.

(** [for x in items: body(x)]. *)
Fixpoint for_each {A : Type} (items : list A) (body : A -> M unit) : M unit :=
  match items with
  | [] => ret tt
  | x :: rest => body x ;; for_each rest body
  end.

(** ** Layout engine: [generate_pdf] *)

Definition heading_color : Color := colors_black.
Definition body_color : Color := mkColor 0.2 0.2 0.2.
Definition contact_color : Color := mkColor 0.35 0.35 0.35.

(** Truth value of [d.get(key)] for a string field: the key is present
    and its value is not empty. *)
Definition present (o : option str) : bool :=
  match o with Some s => truthy s | None => false end.

(** The nested helper [add_section_header]; it writes the enclosing
    [y] ([nonlocal y]). *)
Definition add_section_header (GRADIENT_SUPPORTED : bool) (title : str)
  : M unit :=
  call (setFont "Helvetica-Bold" 14) ;;
  call (setFillColor heading_color) ;;
  y0 <- get_y ;;
  call (drawString 50 y0 title) ;;
  sub_y 4 ;;
  y1 <- get_y ;;
  consumed <- with_canvas (fun c => draw_gradient_line GRADIENT_SUPPORTED c y1 500 3) ;;
  sub_y consumed ;;
  sub_y 8.

(** [for line in split_text(text, 500): c.drawString(50, y, line); y -= 12]. *)
Definition draw_wrapped (text : str) : M unit :=
  for_each (split_text text 500)
    (fun line => y0 <- get_y ;; call (drawString 50 y0 line) ;; sub_y 12).

(** The strings built at the head of the two entry loops. *)
Definition experience_title (exp : Experience) : str :=
  strip (dict_get (position exp) (lit "") ++ lit " at "
         ++ dict_get (company exp) (lit "")).

Definition experience_dates (exp : Experience) : str :=
  strip (dict_get (exp_startDate exp) (lit "") ++ lit " " ++ [en_dash] ++ lit " "
         ++ dict_get (exp_endDate exp) (lit "Present")).

Definition education_degree (edu : Education) : str :=
  strip (dict_get (degree edu) (lit "") ++ lit " at "
         ++ dict_get (institution edu) (lit "")).

Definition education_dates (edu : Education) : str :=
  strip (dict_get (edu_startDate edu) (lit "") ++ lit " " ++ [en_dash] ++ lit " "
         ++ dict_get (edu_endDate edu) (lit "")).

(** What follows the three strings in both loop bodies. *)
Definition draw_entry (title dates desc : str) : M unit :=
  call (setFont "Helvetica-Bold" 12) ;;
  call (setFillColor body_color) ;;
  y0 <- get_y ;;
  call (drawString 50 y0 title) ;;
  sub_y 14 ;;
  when (truthy dates)
    (call (setFont "Helvetica-Oblique" 8) ;;
     y1 <- get_y ;;
     call (drawString 50 y1 dates) ;;
     sub_y 12) ;;
  when (truthy desc)
    (call (setFont "Helvetica" 10) ;;
     draw_wrapped desc) ;;
  sub_y 8.

(** Body of [for exp in experience]. *)
Definition experience_entry (exp : Experience) : M unit :=
  let title := experience_title exp in
  let dates := experience_dates exp in
  let desc := dict_get (exp_description exp) (lit "") in
  draw_entry title dates desc.

(** Body of [for edu in education]. *)
Definition education_entry (edu : Education) : M unit :=
  let degree := education_degree edu in
  let dates := education_dates edu in
  let desc := dict_get (edu_description edu) (lit "") in
  draw_entry degree dates desc.

(** The blocks of [generate_pdf], in source order: the name, the
    contact details and the four sections. *)
Definition draw_name (resume : Resume) : M unit :=
  let name := dict_get (name (dict_get (personal resume) empty_personal))
                (lit "Resume") in
  call (setFont "Helvetica-Bold" 22) ;;
  call (setFillColor heading_color) ;;
  y0 <- get_y ;;
  call (drawString 50 y0 name) ;;
  sub_y 28.

Definition draw_contacts (resume : Resume) : M unit :=
  let personal := dict_get (personal resume) empty_personal in
  let contacts :=
    (if present (email personal)
     then [lit "Email: " ++ dict_get (email personal) []] else [])
    ++ (if present (phone personal)
        then [lit "Phone: " ++ dict_get (phone personal) []] else [])
    ++ (if present (address personal)
        then [lit "Address: " ++ dict_get (address personal) []] else []) in
  call (setFont "Helvetica" 10) ;;
  call (setFillColor contact_color) ;;
  for_each contacts
    (fun line => y0 <- get_y ;; call (drawString 50 y0 line) ;; sub_y 14) ;;
  sub_y 12.

Definition summary_section (GRADIENT_SUPPORTED : bool) (resume : Resume)
  : M unit :=
  let summary := dict_get (summary resume) (lit "") in
  when (truthy summary)
    (add_section_header GRADIENT_SUPPORTED (lit "Summary") ;;
     call (setFont "Helvetica" 10) ;;
     call (setFillColor body_color) ;;
     draw_wrapped summary ;;
     sub_y 12).

Definition skills_section (GRADIENT_SUPPORTED : bool) (resume : Resume)
  : M unit :=
  let skills := dict_get (skills resume) [] in
  when (truthy skills)
    (add_section_header GRADIENT_SUPPORTED (lit "Skills") ;;
     call (setFont "Helvetica" 10) ;;
     call (setFillColor body_color) ;;
     let skill_line := join (lit ", ") skills in
     draw_wrapped skill_line ;;
     sub_y 12).

Definition experience_section (GRADIENT_SUPPORTED : bool) (resume : Resume)
  : M unit :=
  let experience := dict_get (experience resume) [] in
  when (truthy experience)
    (add_section_header GRADIENT_SUPPORTED (lit "Experience") ;;
     for_each experience experience_entry ;;
     sub_y 12).

Definition education_section (GRADIENT_SUPPORTED : bool) (resume : Resume)
  : M unit :=
  let education := dict_get (education resume) [] in
  when (truthy education)
    (add_section_header GRADIENT_SUPPORTED (lit "Education") ;;
     for_each education education_entry ;;
     sub_y 12).

(** The statements of [generate_pdf] after the canvas is created and
    [y] is initialised, up to and including [c.save()]. *)
Definition generate_pdf_body (GRADIENT_SUPPORTED : bool) (resume : Resume)
  : M unit :=
  draw_name resume ;;
  draw_contacts resume ;;
  summary_section GRADIENT_SUPPORTED resume ;;
  skills_section GRADIENT_SUPPORTED resume ;;
  experience_section GRADIENT_SUPPORTED resume ;;
  education_section GRADIENT_SUPPORTED resume ;;
  call save.

(** [generate_pdf(resume, filepath)].  [letter] is ReportLab's page size
    [(width, height)]; the final layout state is returned. *)
Definition generate_pdf (GRADIENT_SUPPORTED : bool) (letter : Z * Z)
    (resume : Resume) (filepath : str) : Layout :=
  let c := mkCanvas filepath letter [] in
  let '(_, height) := letter in
  let y := height - 40 in
  exec (generate_pdf_body GRADIENT_SUPPORTED resume) (mkLayout y [] c).

(** ** Grammar correction: [correct_text]

    The LanguageTool service is outside the program.  One call of
    [requests.post] either raises (timeout, connection error) or returns
    a response with a status code and a body; [response.json()] either
    raises or yields the parsed body.  A parsed body is modelled at the
    shape the code reads: the optional key [matches], and per match the
    keys [offset], [length] and [replacements], each of which may be
    absent. *)

Record Replacement := mkReplacement { value : option str }.

Record Match := mkMatch {
  m_offset : option Z;
  m_length : option Z;
  m_replacements : option (list Replacement)
}.

Record CheckResult := mkCheckResult { matches : option (list Match) }.

Inductive JsonBody :=
| JsonRaises
| Json (result : CheckResult).

Inductive PostOutcome :=
| PostRaises
| Response (status_code : Z) (body : JsonBody).

Record Request := mkRequest {
  url : str;
  data : list (string * str);
  timeout : Z
}.

(** [s[:i]] and [s[i:]] for an integer [i] of either sign. *)
Definition slice_bound (s : str) (i : Z) : nat :=
  Z.to_nat (if i <? 0 then Z.max 0 (i + len s) else Z.min i (len s)).

Definition slice_to (s : str) (i : Z) : str := firstn (slice_bound s i) s.

Definition slice_from (s : str) (i : Z) : str := skipn (slice_bound s i) s.

(** [sorted(matches, key=lambda m: m["offset"], reverse=True)] on the
    pairs (key, match): a stable sort, largest key first. *)
Fixpoint insert_desc (m : Z * Match) (sorted : list (Z * Match))
  : list (Z * Match) :=
  match sorted with
  | [] => [m]
  | x :: rest =>
      if fst x <=? fst m then m :: sorted else x :: insert_desc m rest
  end.

Definition sort_desc (keyed : list (Z * Match)) : list (Z * Match) :=
  fold_right insert_desc [] keyed.

(** The keys [m["offset"]] of all matches; [None] when one of them is
    missing (a [KeyError]). *)
Fixpoint keyed_matches (ms : list Match) : option (list (Z * Match)) :=
  match ms with
  | [] => Some []
  | m :: rest =>
      match m_offset m, keyed_matches rest with
      | Some o, Some ks => Some ((o, m) :: ks)
      | _, _ => None
      end
  end.

(** Body of the loop over the sorted matches; [None] is a raised
    exception. *)
Definition apply_match (corrected : str) (km : Z * Match) : option str :=
  let m := snd km in
  match dict_get (m_replacements m) [] with
  | [] => Some corrected
  | first :: _ =>
      let replacement := dict_get (value first) (lit "") in
      match m_offset m, m_length m with
      | Some o, Some l =>
          let start := o in
          let end_ := o + l in
          Some (slice_to corrected start ++ replacement
                ++ slice_from corrected end_)
      | _, _ => None
      end
  end.

Fixpoint apply_matches (corrected : str) (kms : list (Z * Match))
  : option str :=
  match kms with
  | [] => Some corrected
  | km :: rest =>
      match apply_match corrected km with
      | Some corrected' => apply_matches corrected' rest
      | None => None
      end
  end.

(** The statements of the [try] block after a response with status 200
    was parsed; [None] is a raised exception. *)
Definition apply_result (text : str) (result : CheckResult) : option str :=
  match keyed_matches (dict_get (matches result) []) with
  | Some keyed => apply_matches text (sort_desc keyed)
  | None => None
  end.

(** Truth value of an environment variable read with [os.getenv]. *)
Definition env_set (v : option str) : bool := present v.

(** The request [correct_text] sends for [text]. *)
Definition correct_text_request (LT_USERNAME LT_API_KEY : option str)
    (text : str) : Request :=
  let url := lit "https://api.languagetoolplus.com/v2/check" in
  let data := [("text"%string, text); ("language"%string, lit "auto")] in
  let data :=
    if (env_set LT_USERNAME && env_set LT_API_KEY)%bool
    then data ++ [("username"%string, dict_get LT_USERNAME []);
                  ("apiKey"%string, dict_get LT_API_KEY [])]
    else data in
  mkRequest url data 10.

(** [correct_text(text)]: the returned string and the requests that were
    sent.  [post] is the behaviour of [requests.post] during the call. *)
Definition correct_text (LT_USERNAME LT_API_KEY : option str)
    (post : Request -> PostOutcome) (text : str) : str * list Request :=
  if (negb (truthy text) || negb (truthy (strip text)))%bool
  then (text, [])
  else
    let req := correct_text_request LT_USERNAME LT_API_KEY text in
    let returned :=
      match post req with
      | PostRaises => text
      | Response status_code body =>
          if negb (status_code =? 200) then text
          else match body with
               | JsonRaises => text
               | Json result =>
                   match apply_result text result with
                   | Some corrected => corrected
                   | None => text
                   end
               end
      end in
    (returned, [req]).

(** The correction attempt for [text] fails: the call raises, the status
    is not 200, or an exception is raised while the body is read. *)
Definition attempt_fails (outcome : PostOutcome) (text : str) : Prop :=
  match outcome with
  | PostRaises => True
  | Response status_code body =>
      status_code <> 200 \/
      match body with
      | JsonRaises => True
      | Json result => apply_result text result = None
      end
  end.

(** ** Correcting a whole document: [correct_resume]

    The parsed request body is a JSON value.  [correct_resume] only tells
    dictionaries, lists and strings apart; every other value ([None], a
    boolean, a number) is returned as it is. *)

Inductive Scalar :=
| SNone
| SBool (b : bool)
| SInt (n : Z)
| SFloat (bits : Z).

Unset Elimination Schemes.

Inductive JsonValue :=
| JOther (v : Scalar)
| JStr (s : str)
| JList (items : list JsonValue)
| JDict (items : list (str * JsonValue)).

Set Elimination Schemes.

(** The service may answer each call differently: [post n] is the
    behaviour of [requests.post] at the call number [n] (from 0) of the
    run.  [sent] is the number of calls made so far; the requests made
    are returned next to the value. *)
Definition correct_items (correct : JsonValue -> nat -> JsonValue * list Request)
  : list JsonValue -> nat -> list JsonValue * list Request :=
  fix go (items : list JsonValue) (sent : nat) :=
    match items with
    | [] => ([], [])
    | item :: rest =>
        let '(item', r1) := correct item sent in
        let '(rest', r2) := go rest (sent + List.length r1)%nat in
        (item' :: rest', r1 ++ r2)
    end.

Definition correct_fields (correct : JsonValue -> nat -> JsonValue * list Request)
  : list (str * JsonValue) -> nat -> list (str * JsonValue) * list Request :=
  fix go (items : list (str * JsonValue)) (sent : nat) :=
    match items with
    | [] => ([], [])
    | (k, v) :: rest =>
        let '(v', r1) := correct v sent in
        let '(rest', r2) := go rest (sent + List.length r1)%nat in
        ((k, v') :: rest', r1 ++ r2)
    end.

Fixpoint correct_resume (LT_USERNAME LT_API_KEY : option str)
    (post : nat -> Request -> PostOutcome) (data : JsonValue) (sent : nat)
  {struct data} : JsonValue * list Request :=
  match data with
  | JDict items =>
      let '(items', reqs) :=
        correct_fields (correct_resume LT_USERNAME LT_API_KEY post) items sent in
      (JDict items', reqs)
  | JList items =>
      let '(items', reqs) :=
        correct_items (correct_resume LT_USERNAME LT_API_KEY post) items sent in
      (JList items', reqs)
  | JStr s =>
      let '(s', reqs) := correct_text LT_USERNAME LT_API_KEY (post sent) s in
      (JStr s', reqs)
  | JOther _ => (data, [])
  end.

(** The string values of a document, in the order [correct_resume]
    visits them; dictionary keys are not among them. *)
Fixpoint strings (data : JsonValue) : list str :=
  match data with
  | JOther _ => []
  | JStr s => [s]
  | JList items => flat_map strings items
  | JDict items => flat_map (fun kv => strings (snd kv)) items
  end.

(** A document with every string value blanked: what is left is its
    nesting, its keys, the lengths and order of its lists and its other
    values. *)
Fixpoint skeleton (data : JsonValue) : JsonValue :=
  match data with
  | JOther _ => data
  | JStr _ => JStr []
  | JList items => JList (map skeleton items)
  | JDict items => JDict (map (fun kv => (fst kv, skeleton (snd kv))) items)
  end.

(** ** Observations on a finished layout *)

(** The calls [ks] occur, consecutively and in this order, among the
    calls the canvas of [st] received. *)
Definition emits (st : Layout) (ks : list canvas_call) : Prop :=
  exists before after, calls (c st) = before ++ ks ++ after.

(** The strings drawn, in order. *)
Fixpoint drawn_texts (ks : list canvas_call) : list str :=
  match ks with
  | [] => []
  | drawString _ _ text :: rest => text :: drawn_texts rest
  | _ :: rest => drawn_texts rest
  end.

(** The values [y] takes when, starting from [y0], the [amounts] are
    subtracted one after the other. *)
Fixpoint cursor_values (y0 : Z) (amounts : list Z) : list Z :=
  match amounts with
  | [] => [y0]
  | d :: rest => y0 :: cursor_values (y0 - d) rest
  end.

Definition sum_Z (l : list Z) : Z := fold_right Z.add 0 l.

(** The first token of [text], if there is one, is within the budget. *)
Definition first_token_fits (text : str) (max_width : Z) : Prop :=
  match split text with
  | [] => True
  | t :: _ => len t * 5 <= max_width
  end.

(** A line is within the budget, or it is one overlong token. *)
Definition line_ok (max_width : Z) (line : str) : Prop :=
  len line * 5 <= max_width \/ single_overlong_token max_width line.

(** The canvas after the three calls that draw a heading. *)
Definition heading_canvas (title : str) (st : Layout) : Canvas :=
  canvas_do (drawString 50 (y st) title)
    (canvas_do (setFillColor heading_color)
       (canvas_do (setFont "Helvetica-Bold" 14) (c st))).

(** The calls that open an entry: the bold title at the cursor and the
    oblique date line 14 units below. *)
Definition entry_block (title dates : str) (y0 : Z) : list canvas_call :=
  [ setFont "Helvetica-Bold" 12; setFillColor body_color;
    drawString 50 y0 title;
    setFont "Helvetica-Oblique" 8; drawString 50 (y0 - 14) dates ].

(** A computation is orderly when it only appends calls to the canvas and
    only lowers [y], by the non-negative amounts it adds to
    [subtracted]. *)

Definition orderly {A : Type} (m : M A) : Prop :=
  forall st,
    (exists ks, calls (c (exec m st)) = calls (c st) ++ ks) /\
    (exists ds, subtracted (exec m st) = ds ++ subtracted st /\
                Forall (fun d => 0 <= d) ds /\
                y (exec m st) = y st - sum_Z ds).

(** ** Further observations on wrapped text *)

(** The candidate line [test] of one iteration of [split_text]. *)
Definition candidate (current word : str) : str :=
  current ++ (if truthy current then lit " " else lit "") ++ word.

(** Every line break was forced: the first token of a line did not fit
    at the end of the line before it. *)
Fixpoint breaks_forced (max_width : Z) (lines : list str) : Prop :=
  match lines with
  | a :: (b :: _) as rest =>
      (exists t ts, split b = t :: ts /\ len (candidate a t) * 5 > max_width)
      /\ breaks_forced max_width rest
  | _ => True
  end.

(** ** Further observations on the corrections *)

(** The matches [kms], largest offset first, carry their offset and
    length, lie inside the first [bound] code points and do not
    overlap. *)
Fixpoint desc_ok (bound : Z) (kms : list (Z * Match)) : Prop :=
  match kms with
  | [] => True
  | (o, m) :: rest =>
      m_offset m = Some o /\
      (exists l, m_length m = Some l /\ 0 <= l /\ o + l <= bound) /\
      0 <= o /\
      desc_ok o rest
  end.

(** [text] with every match that offers a replacement replaced at its
    place in [text] itself; [kms] has the largest offset first. *)
Fixpoint spliced (text : str) (kms : list (Z * Match)) : str :=
  match kms with
  | [] => text
  | (o, m) :: rest =>
      match dict_get (m_replacements m) [] with
      | [] => spliced text rest
      | first :: _ =>
          spliced (firstn (Z.to_nat o) text) rest
          ++ dict_get (value first) (lit "")
          ++ skipn (Z.to_nat (o + dict_get (m_length m) 0)) text
      end
  end.

(** ** What the canvas shows

    The canvas keeps a current font and a current fill colour;
    [drawString] and a filled [rect] use the ones in force when they are
    called, and [renderPDF.draw] leaves them as they were. *)

Record Pen := mkPen { pen_font : string; pen_size : Z; pen_fill : Color }.

Inductive FillSpec :=
| SolidFill (color : Color)
| GradientFill (gradient : LinearGradient).

Inductive DrawPrimitive :=
| TextRun (text : str) (font : string) (size : Z) (color : Color)
| FilledRect (width height : Z) (fill : FillSpec).

Definition canvas_step (pen : Pen) (k : canvas_call)
  : list DrawPrimitive * Pen :=
  match k with
  | setFont psfontname size => ([], mkPen psfontname size (pen_fill pen))
  | setFillColor aColor => ([], mkPen (pen_font pen) (pen_size pen) aColor)
  | drawString _ _ text =>
      ([TextRun text (pen_font pen) (pen_size pen) (pen_fill pen)], pen)
  | rect _ _ width height fill _ =>
      (if fill =? 0 then []
       else [FilledRect width height (SolidFill (pen_fill pen))], pen)
  | renderPDF_draw d _ _ =>
      (map (fun r => FilledRect (rect_width r) (rect_height r)
                       (GradientFill (fillColor r))) (contents d), pen)
  | save => ([], pen)
  end.

(** The primitives a sequence of calls draws, and the pen it leaves. *)
Fixpoint scan (pen : Pen) (ks : list canvas_call) : list DrawPrimitive * Pen :=
  match ks with
  | [] => ([], pen)
  | k :: rest =>
      let '(shown, pen1) := canvas_step pen k in
      let '(more, pen2) := scan pen1 rest in
      (shown ++ more, pen2)
  end.

Definition primitives (pen : Pen) (ks : list canvas_call) : list DrawPrimitive :=
  fst (scan pen ks).

(** The content of a rendered resume, written out section by section. *)
Definition rendered_divider (GRADIENT_SUPPORTED : bool) : DrawPrimitive :=
  if GRADIENT_SUPPORTED
  then FilledRect 500 3
         (GradientFill
            (mkLinearGradient 0 0 500 0
               [ (0, mkColor 0.5 0.95 0.75); (1, mkColor 0.2 0.6 1.0) ]))
  else FilledRect 500 3 (SolidFill (mkColor 0.3 0.8 0.9)).

Definition rendered_header (GRADIENT_SUPPORTED : bool) (title : str)
  : list DrawPrimitive :=
  [ TextRun title "Helvetica-Bold" 14 heading_color;
    rendered_divider GRADIENT_SUPPORTED ].

Definition rendered_body (text : str) : list DrawPrimitive :=
  map (fun line => TextRun line "Helvetica" 10 body_color)
    (split_text text 500).

Definition rendered_entry (title dates desc : str) : list DrawPrimitive :=
  [ TextRun title "Helvetica-Bold" 12 body_color;
    TextRun dates "Helvetica-Oblique" 8 body_color ]
  ++ rendered_body desc.

Definition contact_lines (p : Personal) : list str :=
  (if present (email p) then [lit "Email: " ++ dict_get (email p) []] else [])
  ++ (if present (phone p) then [lit "Phone: " ++ dict_get (phone p) []] else [])
  ++ (if present (address p)
      then [lit "Address: " ++ dict_get (address p) []] else []).

Definition rendered_section {A : Type} (GRADIENT_SUPPORTED : bool)
    (title : str) (items : list A) (content : list DrawPrimitive)
  : list DrawPrimitive :=
  if truthy items then rendered_header GRADIENT_SUPPORTED title ++ content
  else [].

Definition rendered (GRADIENT_SUPPORTED : bool) (resume : Resume)
  : list DrawPrimitive :=
  let p := dict_get (personal resume) empty_personal in
  let summary := dict_get (summary resume) [] in
  let skills := dict_get (skills resume) [] in
  let experience := dict_get (experience resume) [] in
  let education := dict_get (education resume) [] in
  [ TextRun (dict_get (name p) (lit "Resume")) "Helvetica-Bold" 22 heading_color ]
  ++ map (fun line => TextRun line "Helvetica" 10 contact_color)
       (contact_lines p)
  ++ rendered_section GRADIENT_SUPPORTED (lit "Summary") summary
       (rendered_body summary)
  ++ rendered_section GRADIENT_SUPPORTED (lit "Skills") skills
       (rendered_body (join (lit ", ") skills))
  ++ rendered_section GRADIENT_SUPPORTED (lit "Experience") experience
       (flat_map
          (fun exp => rendered_entry (experience_title exp)
                        (experience_dates exp)
                        (dict_get (exp_description exp) []))
          experience)
  ++ rendered_section GRADIENT_SUPPORTED (lit "Education") education
       (flat_map
          (fun edu => rendered_entry (education_degree edu)
                        (education_dates edu)
                        (dict_get (edu_description edu) []))
          education).

(** The height a rendered resume takes below the top margin. *)
Definition body_height (text : str) : Z :=
  12 * Z.of_nat (List.length (split_text text 500)).

Definition entry_height (desc : str) : Z := 14 + 12 + body_height desc + 8.

Definition section_height {A : Type} (items : list A) (content : Z) : Z :=
  if truthy items then 17 + content + 12 else 0.

Definition page_used (resume : Resume) : Z :=
  let p := dict_get (personal resume) empty_personal in
  let summary := dict_get (summary resume) [] in
  let skills := dict_get (skills resume) [] in
  let experience := dict_get (experience resume) [] in
  let education := dict_get (education resume) [] in
  28 + 14 * Z.of_nat (List.length (contact_lines p)) + 12
  + section_height summary (body_height summary)
  + section_height skills (body_height (join (lit ", ") skills))
  + section_height experience
      (sum_Z (map (fun exp => entry_height (dict_get (exp_description exp) []))
                experience))
  + section_height education
      (sum_Z (map (fun edu => entry_height (dict_get (edu_description edu) []))
                education)).

(** A computation that, entered with the pen [pen], shows the primitives
    [shown], leaves the pen [pen'] and lowers the cursor by [cost];
    [pen0] is the pen of the fresh canvas. *)
Definition draws {A : Type} (pen0 pen : Pen) (m : M A)
    (shown : list DrawPrimitive) (pen' : Pen) (cost : Z) : Prop :=
  forall st before,
    scan pen0 (calls (c st)) = (before, pen) ->
    scan pen0 (calls (c (exec m st))) = (before ++ shown, pen') /\
    y (exec m st) = y st - cost.

(** The baselines of the strings drawn, in order. *)
Fixpoint baselines (ks : list canvas_call) : list Z :=
  match ks with
  | [] => []
  | drawString _ y0 _ :: rest => y0 :: baselines rest
  | _ :: rest => baselines rest
  end.

(** Every string so far sits on a baseline below the one before it, and
    the cursor is below ([clear]) or not above ([drawn]) all of them. *)
Definition clear (st : Layout) : Prop :=
  Sorted (fun a b => b < a) (baselines (calls (c st))) /\
  Forall (fun b => y st < b) (baselines (calls (c st))).

Definition drawn (st : Layout) : Prop :=
  Sorted (fun a b => b < a) (baselines (calls (c st))) /\
  Forall (fun b => y st <= b) (baselines (calls (c st))).

(** [m] takes every state that satisfies [P] to one that satisfies [Q]. *)
Definition triple {A : Type} (P : Layout -> Prop) (m : M A)
    (Q : Layout -> Prop) : Prop :=
  forall st, P st -> Q (exec m st).

Definition is_text (p : DrawPrimitive) : bool :=
  match p with TextRun _ _ _ _ => true | FilledRect _ _ _ => false end.

(** * Properties *)

(** ** Strings *)

Lemma lit_space : lit " " = [32%N].
Proof. reflexivity. Qed.

Lemma len_app (a b : str) : len (a ++ b) = len a + len b.
Proof. unfold len. rewrite length_app. lia. Qed.

Lemma len_nonneg (a : str) : 0 <= len a.
Proof. unfold len. lia. Qed.

Lemma truthy_true {A : Type} (l : list A) : truthy l = true <-> l <> [].
Proof. destruct l; simpl; split; congruence. Qed.

Lemma truthy_false {A : Type} (l : list A) : truthy l = false <-> l = [].
Proof. destruct l; simpl; split; congruence. Qed.

(** Reading a whitespace code point closes the run being read. *)
Lemma split_from_app_space (a b cur : str) (sp : char) :
  is_space sp = true ->
  split_from cur (a ++ sp :: b) = split_from cur a ++ split_from [] b.
Proof.
  intros Hsp. revert cur.
  induction a as [|x a IH]; intros cur; simpl.
  - rewrite Hsp. destruct (truthy cur); reflexivity.
  - destruct (is_space x).
    + destruct (truthy cur); simpl; rewrite IH; reflexivity.
    + apply IH.
Qed.

Lemma split_app_space (a b : str) :
  split (a ++ lit " " ++ b) = split a ++ split b.
Proof.
  unfold split. rewrite lit_space. simpl.
  apply split_from_app_space. reflexivity.
Qed.

Lemma split_from_run (t cur : str) :
  Forall (fun x => is_space x = false) t ->
  cur ++ t <> [] ->
  split_from cur t = [rev cur ++ t].
Proof.
  revert cur. induction t as [|x t IH]; intros cur Hns Hne; simpl.
  - rewrite app_nil_r in *. destruct cur; [congruence|reflexivity].
  - inversion Hns as [|? ? Hx Ht]; subst. rewrite Hx.
    rewrite IH; auto.
    + simpl. rewrite <- app_assoc. reflexivity.
    + simpl. discriminate.
Qed.

Lemma split_token (t : str) : token t -> split t = [t].
Proof.
  intros [Hne Hns]. unfold split.
  rewrite split_from_run; auto.
Qed.

Lemma split_from_tokens (s cur : str) :
  Forall (fun x => is_space x = false) cur ->
  Forall token (split_from cur s).
Proof.
  assert (Hrun : forall r : str,
             Forall (fun x => is_space x = false) r -> truthy r = true ->
             token (rev r)).
  { intros r Hr Ht. split.
    - destruct r; [discriminate|]. simpl.
      intros E. apply app_eq_nil in E. destruct E; discriminate.
    - apply Forall_rev. exact Hr. }
  revert cur. induction s as [|x s IH]; intros cur Hcur; simpl.
  - destruct (truthy cur) eqn:E; auto.
  - destruct (is_space x) eqn:Ex.
    + destruct (truthy cur) eqn:E; auto.
    + apply IH. constructor; assumption.
Qed.

Lemma split_tokens (s : str) : Forall token (split s).
Proof. apply split_from_tokens. constructor. Qed.

Lemma join_cons (sep x : str) (rest : list str) :
  rest <> [] -> join sep (x :: rest) = x ++ sep ++ join sep rest.
Proof. destruct rest; [congruence|reflexivity]. Qed.

(** Two neighbouring items joined by the separator count as one item. *)
Lemma join_merge (sep a b : str) (l r : list str) :
  join sep (l ++ (a ++ sep ++ b) :: r) = join sep (l ++ a :: b :: r).
Proof.
  induction l as [|x l IH].
  - simpl app. rewrite (join_cons sep a) by discriminate.
    destruct r.
    + reflexivity.
    + rewrite !join_cons by discriminate.
      rewrite <- !app_assoc. reflexivity.
  - simpl app. rewrite !join_cons.
    + rewrite IH. reflexivity.
    + destruct l; discriminate.
    + destruct l; discriminate.
Qed.

(** ** The text wrapper *)

Section Wrapping.

Variable max_width : Z.

Local Abbreviation step := (split_text_step max_width).

Lemma split_text_step_eq (lines : list str) (current word : str) :
  step (lines, current) word =
  if len (current ++ (if truthy current then lit " " else lit "") ++ word) * 5
     >? max_width
  then (lines ++ [current], word)
  else (lines, current ++ (if truthy current then lit " " else lit "") ++ word).
Proof. reflexivity. Qed.

(** The lines closed so far are never looked at again. *)
Lemma split_text_loop_lines (words lines : list str) (current : str) :
  fold_left step words (lines, current) =
  (lines ++ fst (fold_left step words ([], current)),
   snd (fold_left step words ([], current))).
Proof.
  revert lines current.
  induction words as [|word words IH]; intros lines current;
    cbn [fold_left].
  - simpl. rewrite app_nil_r. reflexivity.
  - rewrite !split_text_step_eq.
    destruct (len _ * 5 >? max_width).
    + rewrite (IH (lines ++ [current])), (IH ([] ++ [current])).
      simpl. rewrite <- app_assoc. reflexivity.
    + apply IH.
Qed.

Lemma split_text_flush_cons (line : str) (lines : list str) (current : str) :
  split_text_flush (line :: lines, current) =
  line :: split_text_flush (lines, current).
Proof. simpl. destruct (truthy current); reflexivity. Qed.

(** The candidate line of one iteration carries the tokens of the
    current line followed by the new word. *)
Lemma split_test_line (current word : str) :
  token word ->
  split (current ++ (if truthy current then lit " " else lit "") ++ word) =
  split current ++ [word].
Proof.
  intros Hw. destruct current as [|x current].
  - simpl. apply split_token. exact Hw.
  - cbn [truthy]. rewrite split_app_space, (split_token word Hw).
    reflexivity.
Qed.

(** Tokens are neither dropped nor duplicated nor reordered. *)
Lemma split_text_loop_tokens (words lines : list str) (current : str) :
  Forall token words ->
  concat (map split (split_text_flush (fold_left step words (lines, current)))) =
  concat (map split lines) ++ split current ++ words.
Proof.
  revert lines current.
  induction words as [|word words IH]; intros lines current Hw;
    cbn [fold_left].
  - simpl. rewrite app_nil_r. destruct current as [|x current]; simpl.
    + rewrite app_nil_r. reflexivity.
    + rewrite map_app, concat_app. simpl. rewrite app_nil_r. reflexivity.
  - inversion Hw as [|? ? Hword Hwords]; subst.
    rewrite split_text_step_eq.
    destruct (len _ * 5 >? max_width).
    + rewrite IH by assumption.
      rewrite map_app, concat_app. simpl.
      rewrite (split_token word Hword), app_nil_r, <- app_assoc.
      reflexivity.
    + rewrite IH by assumption.
      rewrite split_test_line by assumption.
      rewrite <- app_assoc. reflexivity.
Qed.

(** Once the current line is not empty, the lines joined by single
    spaces spell the closed lines, the current line and the remaining
    words, joined by single spaces. *)
Lemma split_text_loop_join (words lines : list str) (current : str) :
  current <> [] ->
  Forall token words ->
  join (lit " ") (split_text_flush (fold_left step words (lines, current))) =
  join (lit " ") (lines ++ current :: words).
Proof.
  revert lines current.
  induction words as [|word words IH]; intros lines current Hc Hw;
    cbn [fold_left].
  - simpl. destruct current; [congruence|reflexivity].
  - inversion Hw as [|? ? Hword Hwords]; subst.
    rewrite split_text_step_eq.
    destruct (len _ * 5 >? max_width).
    + rewrite IH; [|apply Hword|assumption].
      rewrite <- app_assoc. reflexivity.
    + destruct current as [|x current]; [congruence|]. cbn [truthy].
      rewrite IH; [|discriminate|assumption].
      apply join_merge.
Qed.

Lemma split_text_loop_budget (words lines : list str) (current : str) :
  Forall token words ->
  Forall (line_ok max_width) lines ->
  line_ok max_width current ->
  Forall (line_ok max_width) (split_text_flush (fold_left step words (lines, current))).
Proof.
  revert lines current.
  induction words as [|word words IH]; intros lines current Hw Hl Hc;
    cbn [fold_left].
  - simpl. destruct (truthy current); auto.
    apply Forall_app. split; auto.
  - inversion Hw as [|? ? Hword Hwords]; subst.
    rewrite split_text_step_eq.
    destruct (len _ * 5 >? max_width) eqn:E.
    + apply IH; auto.
      * apply Forall_app. split; auto.
      * destruct (Z_le_gt_dec (len word * 5) max_width) as [Hfit|Hbig].
        -- left. exact Hfit.
        -- right. split; [apply split_token; exact Hword|lia].
    + apply IH; auto. left.
      destruct (Z.gtb_spec (len (current ++
        (if truthy current then lit " " else lit "") ++ word) * 5) max_width);
        [discriminate|assumption].
Qed.

End Wrapping.

(** C1, as stated, fails: a run of two spaces between two words is not
    reconstructed by joining the lines with single spaces. *)
Lemma split_text_join_not_exact :
  join (lit " ") (split_text (lit "a  b") 500) <> lit "a  b".
Proof. vm_compute. discriminate. Qed.

(** C1 (amended): when the first token of [s] fits the width, joining the
    lines of [split_text s w] with single spaces gives the tokens of [s]
    joined with single spaces (whitespace runs collapsed, leading and
    trailing whitespace removed), and the tokens of the lines are exactly
    the tokens of [s], in order, none dropped or duplicated; [s] itself
    is reconstructed when its tokens are already separated by single
    spaces only. *)
Theorem split_text_join_normalized (s : str) (w : Z) :
  first_token_fits s w ->
  join (lit " ") (split_text s w) = join (lit " ") (split s) /\
  concat (map split (split_text s w)) = split s /\
  (s = join (lit " ") (split s) -> join (lit " ") (split_text s w) = s).
Proof.
  intros Hfit.
  enough (H : join (lit " ") (split_text s w) = join (lit " ") (split s) /\
              concat (map split (split_text s w)) = split s).
  { destruct H as [Hj Ht]. repeat split; try assumption.
    intros E. rewrite Hj. symmetry. exact E. }
  revert Hfit. unfold first_token_fits, split_text. intros Hfit.
  pose proof (split_tokens s) as Htok.
  destruct (split s) as [|t ts]; [split; reflexivity|].
  inversion Htok as [|? ? Ht Hts]; subst.
  cbn [fold_left]. rewrite split_text_step_eq.
  change (lit "") with (@nil char). cbn [truthy app].
  destruct (Z.gtb_spec (len t * 5) w) as [Hbig|_]; [lia|].
  split.
  - rewrite split_text_loop_join; [reflexivity|apply Ht|assumption].
  - rewrite split_text_loop_tokens by assumption.
    simpl. rewrite (split_token t Ht). reflexivity.
Qed.

Lemma split_text_join_normalized_witness :
  first_token_fits (lit "  the quick   brown fox ") 45 /\
  join (lit " ") (split_text (lit "  the quick   brown fox ") 45) =
  lit "the quick brown fox".
Proof.
  split.
  - vm_compute. discriminate.
  - apply (split_text_join_normalized (lit "  the quick   brown fox ") 45).
    vm_compute. discriminate.
Defined.

(** C6: for a width [w > 0], every line of [split_text s w] that is not a
    single token wider than [w] satisfies [len line * 5 <= w]. *)
Theorem split_text_budget (s : str) (w : Z) (line : str) :
  0 < w ->
  In line (split_text s w) ->
  ~ single_overlong_token w line ->
  len line * 5 <= w.
Proof.
  intros Hw Hin Hnot.
  assert (Hall : Forall (line_ok w) (split_text s w)).
  { unfold split_text. apply split_text_loop_budget.
    - apply split_tokens.
    - constructor.
    - left. simpl. lia. }
  rewrite Forall_forall in Hall.
  destruct (Hall line Hin) as [Hfit|Hbig]; [exact Hfit|contradiction].
Qed.

Lemma split_text_budget_witness :
  len (lit "the quick") * 5 <= 45.
Proof.
  apply (split_text_budget (lit "the quick brown fox") 45 (lit "the quick")).
  - lia.
  - vm_compute. left. reflexivity.
  - unfold single_overlong_token. intros [_ H]. vm_compute in H. discriminate.
Defined.

(** C10: when the first token of [text] is wider than [max_width],
    [split_text] returns the empty string followed by lines that carry
    all the tokens of [text], in order. *)
Theorem split_text_overlong_first (text : str) (max_width : Z)
    (t : str) (ts : list str) :
  split text = t :: ts ->
  len t * 5 > max_width ->
  exists rest,
    split_text text max_width = lit "" :: rest /\
    concat (map split rest) = t :: ts /\
    join (lit " ") rest = join (lit " ") (t :: ts).
Proof.
  intros Hsplit Hbig.
  pose proof (split_tokens text) as Htok. rewrite Hsplit in Htok.
  inversion Htok as [|? ? Ht Hts]; subst.
  exists (split_text_flush
            (fold_left (split_text_step max_width) ts ([], t))).
  unfold split_text. rewrite Hsplit.
  cbn [fold_left]. rewrite split_text_step_eq.
  change (lit "") with (@nil char). cbn [truthy app].
  destruct (Z.gtb_spec (len t * 5) max_width) as [_|Hfit]; [|lia].
  split; [|split].
  - rewrite split_text_loop_lines. simpl app.
    rewrite split_text_flush_cons. rewrite <- surjective_pairing.
    reflexivity.
  - rewrite split_text_loop_tokens by assumption.
    simpl. rewrite (split_token t Ht). reflexivity.
  - rewrite split_text_loop_join; [reflexivity|apply Ht|assumption].
Qed.

Lemma split_text_overlong_first_witness :
  exists rest,
    split_text (lit "abcdefghijk xy") 50 = lit "" :: rest /\
    concat (map split rest) = [lit "abcdefghijk"; lit "xy"] /\
    join (lit " ") rest = join (lit " ") [lit "abcdefghijk"; lit "xy"].
Proof.
  apply (split_text_overlong_first (lit "abcdefghijk xy") 50
           (lit "abcdefghijk") [lit "xy"]).
  - reflexivity.
  - reflexivity.
Defined.

(** ** The divider and the section header *)

(** C5: [draw_gradient_line] returns [height + 2] for every [y], [width]
    and [height], with and without gradient support; in particular
    [draw_gradient_line(c, 100, 500, 3)] returns 5 under either value of
    the flag. *)
Theorem draw_gradient_line_returns :
  (forall (GRADIENT_SUPPORTED : bool) (c : Canvas) (y width height : Z),
      fst (draw_gradient_line GRADIENT_SUPPORTED c y width height) = height + 2)
  /\
  (forall (GRADIENT_SUPPORTED : bool) (c : Canvas),
      fst (draw_gradient_line GRADIENT_SUPPORTED c 100 500 3) = 5).
Proof. split; intros; reflexivity. Qed.

Lemma exec_bind {A B : Type} (m : M A) (k : A -> M B) (st : Layout) :
  exec (bind m k) st = exec (k (fst (m st))) (snd (m st)).
Proof. unfold exec, bind. destruct (m st). reflexivity. Qed.

Lemma exec_seq {A B : Type} (m : M A) (k : M B) (st : Layout) :
  exec (m ;; k) st = exec k (exec m st).
Proof. apply exec_bind. Qed.

Lemma add_section_header_exec (GRADIENT_SUPPORTED : bool) (title : str)
    (st : Layout) :
  exec (add_section_header GRADIENT_SUPPORTED title) st =
  mkLayout (y st - 4 - 5 - 8) (8 :: 5 :: 4 :: subtracted st)
    (snd (draw_gradient_line GRADIENT_SUPPORTED (heading_canvas title st)
            (y st - 4) 500 3)).
Proof. reflexivity. Qed.

(** C4: for every title, [add_section_header] lowers the cursor by the
    heading gap 4, plus the value [draw_gradient_line] returns, plus the
    gap 8 before the content; the total is the same for every title. *)
Theorem add_section_header_fixed_cost (GRADIENT_SUPPORTED : bool)
    (title : str) (st : Layout) :
  let st' := exec (add_section_header GRADIENT_SUPPORTED title) st in
  let divider :=
    fst (draw_gradient_line GRADIENT_SUPPORTED (heading_canvas title st)
           (y st - 4) 500 3) in
  y st - y st' = 4 + divider + 8 /\
  subtracted st' = 8 :: divider :: 4 :: subtracted st /\
  (forall title2 : str,
      y (exec (add_section_header GRADIENT_SUPPORTED title2) st) = y st').
Proof.
  rewrite add_section_header_exec. cbn [y subtracted draw_gradient_line fst].
  repeat split; try lia.
Qed.

(** ** Orderly computations *)

Lemma sum_Z_app (a b : list Z) : sum_Z (a ++ b) = sum_Z a + sum_Z b.
Proof. induction a as [|x a IH]; simpl; [reflexivity|]. rewrite IH. lia. Qed.

Lemma orderly_ret {A : Type} (a : A) : orderly (ret a).
Proof.
  intros st. split; [exists []|exists []]; cbn.
  - rewrite app_nil_r. reflexivity.
  - repeat split; [constructor|lia].
Qed.

Lemma orderly_bind {A B : Type} (m : M A) (k : A -> M B) :
  orderly m -> (forall a, orderly (k a)) -> orderly (bind m k).
Proof.
  intros Hm Hk st. rewrite exec_bind.
  destruct (Hm st) as [[ks1 Hc1] [ds1 (Hs1 & Hp1 & Hy1)]].
  destruct (Hk (fst (m st)) (snd (m st))) as [[ks2 Hc2] [ds2 (Hs2 & Hp2 & Hy2)]].
  fold (exec m st) in Hc2, Hs2, Hy2 |- *.
  split.
  - exists (ks1 ++ ks2). rewrite Hc2, Hc1, app_assoc. reflexivity.
  - exists (ds2 ++ ds1). repeat split.
    + rewrite Hs2, Hs1, app_assoc. reflexivity.
    + apply Forall_app. split; assumption.
    + rewrite Hy2, Hy1, sum_Z_app. lia.
Qed.

Lemma orderly_get_y : orderly get_y.
Proof. apply (orderly_ret tt). Qed.

Lemma orderly_sub_y (amount : Z) : 0 <= amount -> orderly (sub_y amount).
Proof.
  intros Hpos st. split.
  - exists []. cbn. rewrite app_nil_r. reflexivity.
  - exists [amount]. cbn. repeat split; [auto|lia].
Qed.

Lemma orderly_call (k : canvas_call) : orderly (call k).
Proof.
  intros st. split.
  - exists [k]. reflexivity.
  - exists []. cbn. repeat split; [constructor|lia].
Qed.

Lemma orderly_when (b : bool) (body : M unit) :
  orderly body -> orderly (when b body).
Proof. intros Hb. destruct b; [exact Hb|apply orderly_ret]. Qed.

Lemma orderly_for_each {A : Type} (items : list A) (body : A -> M unit) :
  (forall x, orderly (body x)) -> orderly (for_each items body).
Proof.
  intros Hb. induction items as [|x items IH]; simpl.
  - apply orderly_ret.
  - apply orderly_bind; auto.
Qed.

Lemma orderly_add_section_header (GRADIENT_SUPPORTED : bool) (title : str) :
  orderly (add_section_header GRADIENT_SUPPORTED title).
Proof.
  intros st. rewrite add_section_header_exec. cbn [y subtracted c]. split.
  - destruct GRADIENT_SUPPORTED; cbn; rewrite <- !app_assoc;
      eexists; reflexivity.
  - exists [8; 5; 4]. repeat split.
    + repeat constructor; lia.
    + cbn. lia.
Qed.

Create HintDb orderly.

#[local] Hint Resolve orderly_ret orderly_get_y orderly_call orderly_when
  orderly_add_section_header : orderly.

Ltac orderly :=
  cbv zeta;
  repeat first
    [ solve [auto with orderly]
    | apply orderly_sub_y; lia
    | apply orderly_when
    | apply orderly_for_each; intros ?
    | apply orderly_bind; [|intros ?] ].

Lemma orderly_draw_wrapped (text : str) : orderly (draw_wrapped text).
Proof. unfold draw_wrapped. orderly. Qed.

Lemma orderly_draw_entry (title dates desc : str) :
  orderly (draw_entry title dates desc).
Proof. unfold draw_entry. orderly. Qed.

Lemma orderly_experience_entry (exp : Experience) :
  orderly (experience_entry exp).
Proof. apply orderly_draw_entry. Qed.

Lemma orderly_education_entry (edu : Education) :
  orderly (education_entry edu).
Proof. apply orderly_draw_entry. Qed.

#[local] Hint Resolve orderly_draw_wrapped orderly_experience_entry
  orderly_education_entry : orderly.

Lemma orderly_draw_name (resume : Resume) : orderly (draw_name resume).
Proof. unfold draw_name. orderly. Qed.

Lemma orderly_draw_contacts (resume : Resume) : orderly (draw_contacts resume).
Proof. unfold draw_contacts. orderly. Qed.

Lemma orderly_summary_section (gs : bool) (resume : Resume) :
  orderly (summary_section gs resume).
Proof. unfold summary_section. orderly. Qed.

Lemma orderly_skills_section (gs : bool) (resume : Resume) :
  orderly (skills_section gs resume).
Proof. unfold skills_section. orderly. Qed.

Lemma orderly_experience_section (gs : bool) (resume : Resume) :
  orderly (experience_section gs resume).
Proof. unfold experience_section. orderly. Qed.

Lemma orderly_education_section (gs : bool) (resume : Resume) :
  orderly (education_section gs resume).
Proof. unfold education_section. orderly. Qed.

#[local] Hint Resolve orderly_draw_name orderly_draw_contacts
  orderly_summary_section orderly_skills_section
  orderly_experience_section orderly_education_section : orderly.

Lemma orderly_generate_pdf_body (gs : bool) (resume : Resume) :
  orderly (generate_pdf_body gs resume).
Proof. unfold generate_pdf_body. orderly. Qed.

(** ** The cursor *)

Lemma cursor_values_sorted (amounts : list Z) (y0 : Z) :
  Forall (fun d => 0 <= d) amounts ->
  Sorted (fun a b => b <= a) (cursor_values y0 amounts).
Proof.
  revert y0. induction amounts as [|d amounts IH]; intros y0 Hpos; simpl.
  - repeat constructor.
  - inversion Hpos as [|? ? Hd Hrest]; subst.
    constructor; [apply IH; assumption|].
    destruct amounts; simpl; constructor; lia.
Qed.

Lemma cursor_values_last (amounts : list Z) (y0 d : Z) :
  last (cursor_values y0 amounts) d = y0 - sum_Z amounts.
Proof.
  revert y0. induction amounts as [|x amounts IH]; intros y0.
  - simpl. lia.
  - change (cursor_values y0 (x :: amounts))
      with (y0 :: cursor_values (y0 - x) amounts).
    assert (Hne : cursor_values (y0 - x) amounts <> [])
      by (destruct amounts; discriminate).
    destruct (cursor_values (y0 - x) amounts) as [|v vs] eqn:E;
      [congruence|].
    change (last (y0 :: v :: vs) d) with (last (v :: vs) d).
    rewrite <- E, IH. simpl. lia.
Qed.

Lemma sum_Z_rev (l : list Z) : sum_Z (rev l) = sum_Z l.
Proof.
  induction l as [|x l IH]; simpl; [reflexivity|].
  rewrite sum_Z_app, IH. simpl. lia.
Qed.

(** C8: during [generate_pdf] the cursor starts at [height - 40] and every
    write to it subtracts a non-negative amount, so the values it takes
    never rise; the canvas calls and the functions that only receive the
    canvas leave it unchanged. *)
Theorem cursor_never_rises (GRADIENT_SUPPORTED : bool) (letter : Z * Z)
    (resume : Resume) (filepath : str) :
  let st := generate_pdf GRADIENT_SUPPORTED letter resume filepath in
  let y0 := snd letter - 40 in
  let values := cursor_values y0 (rev (subtracted st)) in
  Forall (fun d => 0 <= d) (subtracted st) /\
  Sorted (fun a b => b <= a) values /\
  hd y0 values = y0 /\
  last values y0 = y st /\
  (forall (A : Type) (f : Canvas -> A * Canvas) (s : Layout),
      y (exec (with_canvas f) s) = y s /\
      subtracted (exec (with_canvas f) s) = subtracted s) /\
  (forall (k : canvas_call) (s : Layout),
      y (exec (call k) s) = y s /\
      subtracted (exec (call k) s) = subtracted s).
Proof.
  unfold generate_pdf. destruct letter as [width height]. cbn [snd].
  destruct (orderly_generate_pdf_body GRADIENT_SUPPORTED resume
              (mkLayout (height - 40) [] (mkCanvas filepath (width, height) [])))
    as [_ [ds (Hs & Hpos & Hy)]].
  cbn [y subtracted] in Hs, Hy. rewrite app_nil_r in Hs.
  cbv zeta. rewrite Hs.
  split; [exact Hpos|]. split; [|split; [|split; [|split]]].
  - apply cursor_values_sorted. apply Forall_rev. exact Hpos.
  - destruct (rev ds); reflexivity.
  - rewrite cursor_values_last, sum_Z_rev. symmetry. exact Hy.
  - intros A f s. unfold exec, with_canvas. destruct (f (c s)). split; reflexivity.
  - intros k s. split; reflexivity.
Qed.

(** ** Stripping *)

Lemma lstrip_In (x : char) (s : str) :
  In x s -> is_space x = false -> In x (lstrip s).
Proof.
  intros Hin Hx. induction s as [|a s IH]; simpl; [contradiction|].
  destruct (is_space a) eqn:Ea.
  - destruct Hin as [->|Hin]; [congruence|auto].
  - exact Hin.
Qed.

Lemma strip_nonempty (x : char) (s : str) :
  In x s -> is_space x = false -> truthy (strip s) = true.
Proof.
  intros Hin Hx. apply truthy_true. unfold strip, rstrip.
  assert (H : In x (rev (lstrip (rev (lstrip s))))).
  { rewrite <- in_rev. apply lstrip_In; [|exact Hx].
    rewrite <- in_rev. apply lstrip_In; assumption. }
  intros E. rewrite E in H. contradiction.
Qed.

Lemma lstrip_app_nonspace (a b : str) (x : char) :
  is_space x = false -> lstrip (a ++ x :: b) = lstrip a ++ x :: b.
Proof.
  intros Hx. induction a as [|c a IH]; simpl.
  - rewrite Hx. reflexivity.
  - destruct (is_space c); [exact IH|reflexivity].
Qed.

Lemma rstrip_snoc (l : str) (x : char) :
  is_space x = false -> rstrip (l ++ [x]) = l ++ [x].
Proof.
  intros Hx. unfold rstrip. rewrite rev_app_distr. simpl. rewrite Hx.
  simpl. rewrite rev_involutive. reflexivity.
Qed.

Lemma rstrip_snoc_space (l : str) (sp : char) :
  is_space sp = true -> rstrip (l ++ [sp]) = rstrip l.
Proof.
  intros Hsp. unfold rstrip. rewrite rev_app_distr. simpl. rewrite Hsp.
  reflexivity.
Qed.

Lemma lstrip_fixed_app (p r : str) :
  p <> [] -> lstrip p = p -> lstrip (p ++ r) = p ++ r.
Proof.
  intros Hne Hp. destruct p as [|x p]; [congruence|].
  simpl in *. destruct (is_space x) eqn:Ex; [|reflexivity].
  exfalso.
  assert (Hlen : forall s : str, (List.length (lstrip s) <= List.length s)%nat).
  { induction s as [|a s IH]; simpl; [lia|].
    destruct (is_space a); simpl; lia. }
  specialize (Hlen p). rewrite Hp in Hlen. simpl in Hlen. lia.
Qed.

Lemma rstrip_fixed_app (l q : str) :
  q <> [] -> rstrip q = q -> rstrip (l ++ q) = l ++ q.
Proof.
  intros Hne Hq. unfold rstrip in *.
  rewrite rev_app_distr.
  rewrite lstrip_fixed_app.
  - rewrite <- rev_app_distr, rev_involutive. reflexivity.
  - intros E. apply (f_equal (@rev char)) in E.
    rewrite rev_involutive in E. simpl in E. congruence.
  - apply (f_equal (@rev char)) in Hq. rewrite !rev_involutive in Hq.
    exact Hq.
Qed.

(** The date strings of the two loops always hold the dash. *)
Lemma experience_dates_truthy (exp : Experience) :
  truthy (experience_dates exp) = true.
Proof.
  unfold experience_dates. apply (strip_nonempty en_dash); [|reflexivity].
  rewrite !in_app_iff. right. right. left. left. reflexivity.
Qed.

Lemma education_dates_truthy (edu : Education) :
  truthy (education_dates edu) = true.
Proof.
  unfold education_dates. apply (strip_nonempty en_dash); [|reflexivity].
  rewrite !in_app_iff. right. right. left. left. reflexivity.
Qed.

(** With no end date: the experience line ends in [Present], the
    education line ends at the dash. *)
Lemma experience_dates_no_end (exp : Experience) :
  exp_endDate exp = None ->
  experience_dates exp =
  lstrip (dict_get (exp_startDate exp) (lit "") ++ lit " ")
  ++ [en_dash] ++ lit " Present".
Proof.
  intros Hend. unfold experience_dates, strip. rewrite Hend.
  set (start := dict_get (exp_startDate exp) (lit "")).
  change (start ++ lit " " ++ [en_dash] ++ lit " " ++ dict_get None (lit "Present"))
    with (start ++ lit " " ++ en_dash :: lit " Present").
  rewrite app_assoc, lstrip_app_nonspace by reflexivity.
  change (en_dash :: lit " Present")
    with ((en_dash :: lit " Presen") ++ [116%N]).
  rewrite app_assoc, rstrip_snoc by reflexivity.
  rewrite <- app_assoc. reflexivity.
Qed.

Lemma education_dates_no_end (edu : Education) :
  edu_endDate edu = None ->
  education_dates edu =
  lstrip (dict_get (edu_startDate edu) (lit "") ++ lit " ") ++ [en_dash].
Proof.
  intros Hend. unfold education_dates, strip. rewrite Hend.
  set (start := dict_get (edu_startDate edu) (lit "")).
  change (start ++ lit " " ++ [en_dash] ++ lit " " ++ dict_get None (lit ""))
    with (start ++ lit " " ++ en_dash :: lit " ").
  rewrite app_assoc, lstrip_app_nonspace by reflexivity.
  change (en_dash :: lit " ") with ([en_dash] ++ [32%N]).
  rewrite app_assoc, rstrip_snoc_space by reflexivity.
  apply rstrip_snoc. reflexivity.
Qed.

(** ** Entries on the canvas *)

Lemma emits_grow {A : Type} (m : M A) (st : Layout) (ks : list canvas_call) :
  orderly m -> emits st ks -> emits (exec m st) ks.
Proof.
  intros Hm (before & after & E).
  destruct (Hm st) as [[more Hc] _].
  exists before, (after ++ more).
  rewrite Hc, E, <- !app_assoc. reflexivity.
Qed.

Lemma emits_seq_l {A B : Type} (m : M A) (k : M B) (st : Layout)
    (ks : list canvas_call) :
  orderly k -> emits (exec m st) ks -> emits (exec (m ;; k) st) ks.
Proof. intros Hk H. rewrite exec_seq. apply emits_grow; assumption. Qed.

Lemma draw_entry_emits (title dates desc : str) (st : Layout) :
  truthy dates = true ->
  emits (exec (draw_entry title dates desc) st) (entry_block title dates (y st)).
Proof.
  intros Hd. unfold draw_entry. rewrite Hd.
  do 6 (rewrite exec_bind; cbv beta).
  apply emits_grow; [orderly|].
  exists (calls (c st)), []. cbn. rewrite <- !app_assoc. reflexivity.
Qed.

Lemma for_each_emits {A : Type} (body : A -> M unit)
    (block : A -> Z -> list canvas_call) (items : list A) (e : A) :
  (forall x, orderly (body x)) ->
  (forall x st, emits (exec (body x) st) (block x (y st))) ->
  In e items ->
  forall st, exists y0, emits (exec (for_each items body) st) (block e y0).
Proof.
  intros Hord Hblock. induction items as [|x items IH]; intros Hin st.
  - contradiction.
  - cbn [for_each]. destruct Hin as [->|Hin].
    + exists (y st). apply emits_seq_l; [|apply Hblock].
      apply orderly_for_each. exact Hord.
    + rewrite exec_seq. apply IH. exact Hin.
Qed.

Lemma In_truthy {A : Type} (x : A) (l : list A) : In x l -> truthy l = true.
Proof. destruct l; [contradiction|reflexivity]. Qed.

(** Every experience entry of the document opens with its title and its
    date line. *)
Lemma experience_entry_emitted (gs : bool) (letter : Z * Z) (resume : Resume)
    (filepath : str) (exp : Experience) :
  In exp (dict_get (experience resume) []) ->
  exists y0,
    emits (generate_pdf gs letter resume filepath)
      (entry_block (experience_title exp) (experience_dates exp) y0).
Proof.
  intros Hin. unfold generate_pdf. destruct letter as [width height].
  cbv zeta. unfold generate_pdf_body.
  do 4 rewrite exec_seq.
  set (st := exec (skills_section gs resume) _).
  destruct (for_each_emits experience_entry
              (fun e => entry_block (experience_title e) (experience_dates e))
              _ exp orderly_experience_entry
              (fun x s => draw_entry_emits _ _ _ s (experience_dates_truthy x))
              Hin
              (exec (add_section_header gs (lit "Experience")) st))
    as [y0 Hy0].
  exists y0. apply emits_seq_l; [orderly|].
  unfold experience_section. cbv zeta.
  rewrite (In_truthy _ _ Hin). cbn [when].
  rewrite exec_seq. apply emits_seq_l; [orderly|]. exact Hy0.
Qed.

(** Every education entry of the document opens with its title and its
    date line. *)
Lemma education_entry_emitted (gs : bool) (letter : Z * Z) (resume : Resume)
    (filepath : str) (edu : Education) :
  In edu (dict_get (education resume) []) ->
  exists y0,
    emits (generate_pdf gs letter resume filepath)
      (entry_block (education_degree edu) (education_dates edu) y0).
Proof.
  intros Hin. unfold generate_pdf. destruct letter as [width height].
  cbv zeta. unfold generate_pdf_body.
  do 5 rewrite exec_seq.
  set (st := exec (experience_section gs resume) _).
  destruct (for_each_emits education_entry
              (fun e => entry_block (education_degree e) (education_dates e))
              _ edu orderly_education_entry
              (fun x s => draw_entry_emits _ _ _ s (education_dates_truthy x))
              Hin
              (exec (add_section_header gs (lit "Education")) st))
    as [y0 Hy0].
  exists y0. apply emits_seq_l; [orderly|].
  unfold education_section. cbv zeta.
  rewrite (In_truthy _ _ Hin). cbn [when].
  rewrite exec_seq. apply emits_seq_l; [orderly|]. exact Hy0.
Qed.

Lemma emits_prefix (st : Layout) (ks more : list canvas_call) :
  emits st (ks ++ more) -> emits st ks.
Proof.
  intros (before & after & E). exists before, (more ++ after).
  rewrite E, <- app_assoc. reflexivity.
Qed.

(** C2 at a failing input: an experience entry with neither [startDate]
    nor [endDate] still gets an oblique date line, and the cursor drops
    by the 12 units of that line (from 681 to 669). *)
Theorem date_line_drawn_without_dates :
  let exp := mkExperience (Some (lit "Engineer")) (Some (lit "Acme"))
               None None None in
  let resume := mkResume None None None (Some [exp]) None in
  let st := generate_pdf false (612, 792) resume (lit "resume.pdf") in
  calls (c st) =
    [ setFont "Helvetica-Bold" 22; setFillColor heading_color;
      drawString 50 752 (lit "Resume");
      setFont "Helvetica" 10; setFillColor contact_color;
      setFont "Helvetica-Bold" 14; setFillColor heading_color;
      drawString 50 712 (lit "Experience");
      setFillColor (mkColor 0.3 0.8 0.9); rect 50 705 500 3 1 0;
      setFont "Helvetica-Bold" 12; setFillColor body_color;
      drawString 50 695 (lit "Engineer at Acme");
      setFont "Helvetica-Oblique" 8;
      drawString 50 681 (en_dash :: lit " Present");
      save ]
  /\ rev (subtracted st) = [28; 12; 4; 5; 8; 14; 12; 8; 12]
  /\ y st = 649.
Proof. vm_compute. repeat split. Qed.

(** C3: an experience entry without [endDate] gets a date line that ends
    in [Present] after the dash; an education entry without [endDate]
    gets a date line that ends at the dash, with nothing in the place of
    the end date.  This holds for every entry of either list. *)
Theorem end_date_default_differs (GRADIENT_SUPPORTED : bool) (letter : Z * Z)
    (resume : Resume) (filepath : str) :
  let st := generate_pdf GRADIENT_SUPPORTED letter resume filepath in
  (forall exp : Experience,
      In exp (dict_get (experience resume) []) ->
      exp_endDate exp = None ->
      exists y0,
        emits st
          (entry_block (experience_title exp)
             (lstrip (dict_get (exp_startDate exp) (lit "") ++ lit " ")
              ++ [en_dash] ++ lit " Present") y0))
  /\
  (forall edu : Education,
      In edu (dict_get (education resume) []) ->
      edu_endDate edu = None ->
      exists y0,
        emits st
          (entry_block (education_degree edu)
             (lstrip (dict_get (edu_startDate edu) (lit "") ++ lit " ")
              ++ [en_dash]) y0)).
Proof.
  cbv zeta. split.
  - intros exp Hin Hend. rewrite <- (experience_dates_no_end exp Hend).
    apply experience_entry_emitted. exact Hin.
  - intros edu Hin Hend. rewrite <- (education_dates_no_end edu Hend).
    apply education_entry_emitted. exact Hin.
Qed.

Lemma end_date_default_differs_witness :
  let exp := mkExperience (Some (lit "Engineer")) (Some (lit "Acme"))
               (Some (lit "2020")) None None in
  let edu := mkEducation (Some (lit "BSc")) (Some (lit "MIT"))
               (Some (lit "2016")) None None in
  let resume := mkResume None None None (Some [exp]) (Some [edu]) in
  let st := generate_pdf true (612, 792) resume (lit "resume.pdf") in
  (exists y0,
      emits st (entry_block (lit "Engineer at Acme")
                  (lit "2020 " ++ [en_dash] ++ lit " Present") y0))
  /\
  (exists y0,
      emits st (entry_block (lit "BSc at MIT") (lit "2016 " ++ [en_dash]) y0)).
Proof.
  intros exp edu resume st.
  destruct (end_date_default_differs true (612, 792) resume (lit "resume.pdf"))
    as [Hexp Hedu].
  split.
  - apply (Hexp exp); [left; reflexivity|reflexivity].
  - apply (Hedu edu); [left; reflexivity|reflexivity].
Defined.

(** C7, as stated, fails: for an entry with neither [position] nor
    [company] the title drawn is [at], without the surrounding spaces. *)
Lemma blank_title_is_stripped :
  let exp := mkExperience None None None None None in
  let resume := mkResume None None None (Some [exp]) None in
  let st := generate_pdf false (612, 792) resume (lit "resume.pdf") in
  drawn_texts (calls (c st)) =
    [lit "Resume"; lit "Experience"; lit "at"; en_dash :: lit " Present"]
  /\ ~ In (lit " at ") (drawn_texts (calls (c st))).
Proof.
  vm_compute. split; [reflexivity|].
  intros H. repeat (destruct H as [H|H]; [discriminate H|]). exact H.
Qed.

Lemma lstrip_length (s : str) :
  (List.length (lstrip s) <= List.length s)%nat.
Proof.
  induction s as [|a s IH]; simpl; [lia|].
  destruct (is_space a); simpl; lia.
Qed.

Lemma rstrip_length (s : str) :
  (List.length (rstrip s) <= List.length s)%nat.
Proof.
  unfold rstrip. rewrite length_rev.
  pose proof (lstrip_length (rev s)) as H. rewrite length_rev in H. exact H.
Qed.

Lemma lstrip_same_length (s : str) :
  List.length (lstrip s) = List.length s -> lstrip s = s.
Proof.
  destruct s as [|a s]; simpl; [reflexivity|].
  destruct (is_space a); [|reflexivity].
  intros H. pose proof (lstrip_length s). lia.
Qed.

(** A string that [strip] leaves alone is left alone at either end. *)
Lemma strip_fixed (s : str) : strip s = s -> lstrip s = s /\ rstrip s = s.
Proof.
  unfold strip. intros H.
  assert (Hl : lstrip s = s).
  { apply lstrip_same_length.
    pose proof (rstrip_length (lstrip s)) as H1. rewrite H in H1.
    pose proof (lstrip_length s). lia. }
  split; [exact Hl|]. rewrite Hl in H. exact H.
Qed.

(** A string kept by [lstrip] although whitespace follows its prefix [p]
    has a prefix that is not empty and is kept itself. *)
Lemma lstrip_fixed_prefix (p r : str) (sp : char) :
  is_space sp = true ->
  lstrip (p ++ sp :: r) = p ++ sp :: r ->
  p <> [] /\ lstrip p = p.
Proof.
  intros Hsp H. destruct p as [|x p].
  - exfalso. simpl in H. rewrite Hsp in H.
    pose proof (lstrip_length r) as L. rewrite H in L. simpl in L. lia.
  - split; [discriminate|]. simpl in *.
    destruct (is_space x); [|reflexivity].
    exfalso. pose proof (lstrip_length (p ++ sp :: r)) as L.
    rewrite H in L. simpl in L. lia.
Qed.

(** C7 (amended): the title line of every experience entry is the
    template [position at company], absent fields read as the empty
    string, with leading and trailing whitespace removed.  With both
    fields absent the line is [at].  The line is the template itself
    exactly when [position], read in this way, is not empty and does not
    start with whitespace and [company], read in this way, is not empty
    and does not end with whitespace. *)
Theorem experience_title_rendered (GRADIENT_SUPPORTED : bool)
    (letter : Z * Z) (resume : Resume) (filepath : str) (exp : Experience) :
  In exp (dict_get (experience resume) []) ->
  let p := dict_get (position exp) (lit "") in
  let q := dict_get (company exp) (lit "") in
  let template := p ++ lit " at " ++ q in
  (exists y0,
      emits (generate_pdf GRADIENT_SUPPORTED letter resume filepath)
        [ setFont "Helvetica-Bold" 12; setFillColor body_color;
          drawString 50 y0 (strip template) ])
  /\ (position exp = None -> company exp = None -> strip template = lit "at")
  /\ (strip template = template <->
      (p <> [] /\ lstrip p = p) /\ (q <> [] /\ rstrip q = q)).
Proof.
  intros Hin p q template. split; [|split].
  - destruct (experience_entry_emitted GRADIENT_SUPPORTED letter resume
                filepath exp Hin) as [y0 Hy0].
    exists y0. eapply emits_prefix with (more := [_; _]). exact Hy0.
  - intros Hp Hc. unfold template, p, q. rewrite Hp, Hc. reflexivity.
  - unfold template. clearbody p q. split.
    + intros H. apply strip_fixed in H. destruct H as [Hl Hr]. split.
      * apply (lstrip_fixed_prefix p (lit "at " ++ q) 32%N);
          [reflexivity|exact Hl].
      * unfold rstrip in Hr. apply (f_equal (@rev char)) in Hr.
        rewrite rev_involutive in Hr.
        replace (rev (p ++ lit " at " ++ q))
          with (rev q ++ 32%N :: rev (p ++ lit " at")) in Hr.
        -- apply lstrip_fixed_prefix in Hr; [|reflexivity].
           destruct Hr as [Hne Hq]. split.
           ++ intros E. apply Hne. rewrite E. reflexivity.
           ++ unfold rstrip. rewrite Hq. apply rev_involutive.
        -- change (lit " at ") with (lit " at" ++ [32%N]).
           rewrite <- (app_assoc (lit " at")), (app_assoc p).
           rewrite (rev_app_distr (p ++ lit " at")). simpl.
           rewrite <- app_assoc. reflexivity.
    + intros [[Hpne Hpl] [Hqne Hqr]]. unfold strip.
      rewrite lstrip_fixed_app by assumption.
      rewrite !app_assoc. apply rstrip_fixed_app; assumption.
Qed.

Lemma experience_title_rendered_witness :
  let exp := mkExperience None (Some (lit "Acme")) None None None in
  let resume := mkResume None None None (Some [exp]) None in
  exists y0,
    emits (generate_pdf false (612, 792) resume (lit "resume.pdf"))
      [ setFont "Helvetica-Bold" 12; setFillColor body_color;
        drawString 50 y0 (lit "at Acme") ].
Proof.
  intros exp resume.
  apply (experience_title_rendered false (612, 792) resume (lit "resume.pdf") exp).
  left. reflexivity.
Defined.

(** ** Grammar correction *)

Example correct_text_applies_replacements :
  let fix_typo :=
    mkMatch (Some 0) (Some 4) (Some [mkReplacement (Some (lit "Hello"))]) in
  let fix_end :=
    mkMatch (Some 5) (Some 4) (Some [mkReplacement (Some (lit "world"))]) in
  let post := fun _ : Request =>
    Response 200 (Json (mkCheckResult (Some [fix_typo; fix_end]))) in
  fst (correct_text None None post (lit "helo wrld")) = lit "Hello world".
Proof. reflexivity. Qed.

(** C9: [correct_text] returns its argument unchanged whenever the
    attempt fails (the call raises, the status is not 200, or reading the
    body raises); when [LT_USERNAME] or [LT_API_KEY] is unset the request
    is still sent, with the fields [text] and [language] only, and a good
    answer is still applied. *)
Theorem correct_text_falls_back (LT_USERNAME LT_API_KEY : option str)
    (post : Request -> PostOutcome) (text : str) :
  let req := correct_text_request LT_USERNAME LT_API_KEY text in
  let out := correct_text LT_USERNAME LT_API_KEY post text in
  (attempt_fails (post req) text -> fst out = text)
  /\ ((env_set LT_USERNAME && env_set LT_API_KEY)%bool = false ->
      truthy (strip text) = true ->
      snd out =
        [ mkRequest (lit "https://api.languagetoolplus.com/v2/check")
            [("text"%string, text); ("language"%string, lit "auto")] 10 ]
      /\ (forall (result : CheckResult) (corrected : str),
             post req = Response 200 (Json result) ->
             apply_result text result = Some corrected ->
             fst out = corrected)).
Proof.
  cbv zeta. unfold correct_text. split.
  - intros Hfail.
    destruct (negb (truthy text) || negb (truthy (strip text)))%bool;
      [reflexivity|].
    cbn [fst].
    destruct (post (correct_text_request LT_USERNAME LT_API_KEY text))
      as [|status_code body]; [reflexivity|].
    cbn [attempt_fails] in Hfail.
    destruct (Z.eqb_spec status_code 200) as [E|NE]; [|reflexivity].
    cbn [negb]. destruct Hfail as [Hne|Hbody]; [contradiction|].
    destruct body as [|result]; [reflexivity|].
    rewrite Hbody. reflexivity.
  - intros Hcreds Hblank.
    assert (Htext : truthy text = true).
    { destruct text; [discriminate Hblank|reflexivity]. }
    rewrite Htext, Hblank. cbn [negb orb snd fst].
    unfold correct_text_request. rewrite Hcreds.
    split; [reflexivity|].
    intros result corrected Hpost Happly.
    rewrite Hpost. cbn. rewrite Happly. reflexivity.
Qed.

Lemma correct_text_falls_back_witness :
  let text := lit "helo wrld" in
  let no_offset :=
    mkMatch None (Some 4) (Some [mkReplacement (Some (lit "Hello"))]) in
  fst (correct_text None None (fun _ => PostRaises) text) = text
  /\ fst (correct_text None None (fun _ => Response 503 JsonRaises) text) = text
  /\ fst (correct_text (Some (lit "me")) (Some (lit "key"))
            (fun _ => Response 200 JsonRaises) text) = text
  /\ fst (correct_text None None
            (fun _ => Response 200 (Json (mkCheckResult (Some [no_offset]))))
            text) = text
  /\ snd (correct_text (Some (lit "me")) None
            (fun _ => Response 200 (Json (mkCheckResult None))) text) =
     [ mkRequest (lit "https://api.languagetoolplus.com/v2/check")
         [("text"%string, text); ("language"%string, lit "auto")] 10 ].
Proof.
  intros text no_offset.
  split; [|split; [|split; [|split]]].
  - apply (correct_text_falls_back None None (fun _ => PostRaises) text).
    exact I.
  - apply (correct_text_falls_back None None
             (fun _ => Response 503 JsonRaises) text).
    left. discriminate.
  - apply (correct_text_falls_back (Some (lit "me")) (Some (lit "key"))
             (fun _ => Response 200 JsonRaises) text).
    right. exact I.
  - apply (correct_text_falls_back None None
             (fun _ => Response 200 (Json (mkCheckResult (Some [no_offset]))))
             text).
    right. reflexivity.
  - apply (correct_text_falls_back (Some (lit "me")) None
             (fun _ => Response 200 (Json (mkCheckResult None))) text);
      reflexivity.
Defined.

(** * Further properties of the code *)

(** ** More on the text wrapper *)

Lemma split_from_nil_iff (s cur : str) :
  split_from cur s = [] <->
  cur = [] /\ Forall (fun x => is_space x = true) s.
Proof.
  revert cur. induction s as [|x s IH]; intros cur; simpl.
  - destruct cur; simpl; split.
    + auto.
    + reflexivity.
    + discriminate.
    + intros [E _]. discriminate E.
  - destruct (is_space x) eqn:Ex.
    + destruct cur as [|a cur]; cbn [truthy].
      * rewrite IH. split; intros [E H]; split; auto.
        inversion H; assumption.
      * split; [discriminate|]. intros [E _]. discriminate E.
    + rewrite IH. split.
      * intros [E _]. discriminate E.
      * intros [_ H]. inversion H; congruence.
Qed.

Lemma split_nil_iff (s : str) :
  split s = [] <-> Forall (fun x => is_space x = true) s.
Proof.
  unfold split. rewrite split_from_nil_iff. split; [intros [_ H]|]; auto.
Qed.

(** X1: [split_text] returns no line at all exactly when the text holds
    nothing but whitespace (in particular when it is empty). *)
Theorem split_text_nil_iff (text : str) (max_width : Z) :
  split_text text max_width = [] <->
  Forall (fun x => is_space x = true) text.
Proof.
  rewrite <- split_nil_iff. split; intros H.
  - pose proof (split_text_loop_tokens max_width (split text) [] []
                  (split_tokens text)) as Ht.
    fold (split_text text max_width) in Ht.
    change (split_text_flush
              (fold_left (split_text_step max_width) (split text) ([], [])))
      with (split_text text max_width) in Ht.
    rewrite H in Ht. simpl in Ht. symmetry. exact Ht.
  - unfold split_text. rewrite H. reflexivity.
Qed.

Section MoreWrapping.

Variable max_width : Z.

Local Abbreviation step := (split_text_step max_width).

Lemma split_text_loop_has_token (words lines : list str) (current : str) :
  Forall token words ->
  Forall (fun l => split l <> []) lines ->
  split current <> [] ->
  Forall (fun l => split l <> [])
    (split_text_flush (fold_left step words (lines, current))).
Proof.
  revert lines current.
  induction words as [|word words IH]; intros lines current Hw Hl Hc;
    cbn [fold_left].
  - simpl. destruct current; [exfalso; apply Hc; reflexivity|].
    cbn [truthy]. apply Forall_app. split; auto.
  - inversion Hw as [|? ? Hword Hwords]; subst.
    rewrite split_text_step_eq.
    destruct (len _ * 5 >? max_width).
    + apply IH; auto.
      * apply Forall_app. split; auto.
      * rewrite (split_token word Hword). discriminate.
    + apply IH; auto.
      rewrite split_test_line by assumption.
      intros E. apply app_eq_nil in E. destruct E; discriminate.
Qed.

(** While the rest of the text fits behind the current line, nothing is
    closed. *)
Lemma split_text_loop_fits (words lines : list str) (current : str) :
  current <> [] ->
  len (join (lit " ") (current :: words)) * 5 <= max_width ->
  fold_left step words (lines, current) =
  (lines, join (lit " ") (current :: words)).
Proof.
  revert current.
  induction words as [|word words IH]; intros current Hc Hfit;
    cbn [fold_left].
  - reflexivity.
  - rewrite split_text_step_eq.
    destruct current as [|x current]; [congruence|]. cbn [truthy].
    remember (x :: current) as cur eqn:Ecur.
    assert (Hne : cur <> []) by (subst cur; discriminate).
    pose proof (join_merge (lit " ") cur word [] words) as Hmerge.
    cbn [app] in Hmerge.
    assert (Hlen : len (cur ++ lit " " ++ word) <=
                   len (join (lit " ") (cur :: word :: words))).
    { rewrite (join_cons (lit " ") cur) by discriminate.
      clear Hmerge. rewrite !len_app.
      destruct words as [|w2 words].
      - simpl join. lia.
      - rewrite (join_cons (lit " ") word) by discriminate.
        rewrite !len_app.
        pose proof (len_nonneg (lit " ")).
        pose proof (len_nonneg (join (lit " ") (w2 :: words))). lia. }
    destruct (Z.gtb_spec (len (cur ++ lit " " ++ word) * 5) max_width)
      as [Hbig|_]; [exfalso; unfold str in *; lia|].
    rewrite IH.
    + f_equal. exact Hmerge.
    + destruct cur; [congruence|discriminate].
    + apply Z.le_trans with (2 := Hfit). apply Z.eq_le_incl.
      f_equal. f_equal. exact Hmerge.
Qed.

Lemma breaks_forced_snoc (lines : list str) (a b : str) :
  breaks_forced max_width (lines ++ [a]) ->
  (exists t ts, split b = t :: ts /\ len (candidate a t) * 5 > max_width) ->
  breaks_forced max_width ((lines ++ [a]) ++ [b]).
Proof.
  intros Hl Hb. induction lines as [|x lines IH].
  - simpl. auto.
  - destruct lines as [|x2 lines].
    + simpl in *. destruct Hl as [Hx _]. auto.
    + cbn [app breaks_forced] in *. destruct Hl as [Hx Hrest].
      split; [exact Hx|]. apply IH. exact Hrest.
Qed.

(** Growing the last line leaves the breaks forced as long as its first
    token stays. *)
Lemma breaks_forced_last (lines : list str) (b b' t : str)
    (ts ts' : list str) :
  split b = t :: ts -> split b' = t :: ts' ->
  breaks_forced max_width (lines ++ [b]) ->
  breaks_forced max_width (lines ++ [b']).
Proof.
  intros Hb Hb' Hl. induction lines as [|x lines IH].
  - exact I.
  - destruct lines as [|x2 lines].
    + simpl in *. destruct Hl as [(t0 & ts0 & E & Hbig) _].
      rewrite Hb in E. injection E as <- <-.
      split; [|exact I]. exists t, ts'. auto.
    + cbn [app breaks_forced] in *. destruct Hl as [Hx Hrest].
      split; [exact Hx|]. apply IH. exact Hrest.
Qed.

Lemma split_text_loop_forced (words lines : list str) (current t : str)
    (ts : list str) :
  Forall token words ->
  split current = t :: ts ->
  breaks_forced max_width (lines ++ [current]) ->
  breaks_forced max_width
    (split_text_flush (fold_left step words (lines, current))).
Proof.
  revert lines current t ts.
  induction words as [|word words IH]; intros lines current t ts Hw Hc Hl;
    cbn [fold_left].
  - simpl. destruct current; [discriminate Hc|]. exact Hl.
  - inversion Hw as [|? ? Hword Hwords]; subst.
    rewrite split_text_step_eq.
    destruct (Z.gtb_spec
                (len (current ++ (if truthy current then lit " " else lit "")
                      ++ word) * 5) max_width) as [Hbig|Hfit].
    + apply (IH _ _ word []); auto.
      * apply split_token. exact Hword.
      * apply breaks_forced_snoc; [exact Hl|].
        exists word, []. split; [apply split_token; exact Hword|].
        unfold candidate. lia.
    + apply (IH _ _ t (ts ++ [word])); auto.
      * rewrite split_test_line by assumption. rewrite Hc. reflexivity.
      * apply (breaks_forced_last lines current _ t ts (ts ++ [word]));
          auto.
        rewrite split_test_line by assumption. rewrite Hc. reflexivity.
Qed.

End MoreWrapping.

Lemma split_text_tokens (text : str) (max_width : Z) :
  concat (map split (split_text text max_width)) = split text.
Proof.
  exact (split_text_loop_tokens max_width (split text) [] []
           (split_tokens text)).
Qed.

(** The first iteration: the first token either opens the first line or,
    when it is too wide, follows an empty line. *)
Lemma split_text_first (text : str) (max_width : Z) (t : str) (ts : list str) :
  split text = t :: ts ->
  split_text text max_width =
  split_text_flush
    (fold_left (split_text_step max_width) ts
       (if len t * 5 >? max_width then ([ [] ], t) else ([], t))).
Proof.
  intros E. unfold split_text. rewrite E. cbn [fold_left].
  rewrite split_text_step_eq. change (lit "") with (@nil char).
  cbn [truthy app]. destruct (len t * 5 >? max_width); reflexivity.
Qed.

Lemma join_first_len (sep x : str) (rest : list str) :
  len x <= len (join sep (x :: rest)).
Proof.
  destruct rest as [|r rest].
  - simpl. lia.
  - rewrite join_cons by discriminate. rewrite !len_app.
    pose proof (len_nonneg sep).
    pose proof (len_nonneg (join sep (r :: rest))). lia.
Qed.

(** The result is a list of lines with tokens, or such a list behind the
    empty line that an overlong first token leaves. *)
Lemma split_text_lines_have_tokens_aux (text : str) (max_width : Z) :
  Forall (fun l => split l <> []) (split_text text max_width) \/
  exists t ts rest,
    split text = t :: ts /\ len t * 5 > max_width /\
    split_text text max_width = [] :: rest /\
    Forall (fun l => split l <> []) rest.
Proof.
  pose proof (split_tokens text) as Htok.
  destruct (split text) as [|t ts] eqn:E.
  - left. unfold split_text. rewrite E. constructor.
  - inversion Htok as [|? ? Ht Hts]; subst.
    rewrite (split_text_first text max_width t ts E).
    assert (Hrest : Forall (fun l => split l <> [])
                      (split_text_flush
                         (fold_left (split_text_step max_width) ts ([], t)))).
    { apply split_text_loop_has_token; auto.
      rewrite (split_token t Ht). discriminate. }
    destruct (Z.gtb_spec (len t * 5) max_width) as [Hbig|Hfit].
    + right. exists t, ts. eexists. split; [reflexivity|].
      split; [lia|].
      rewrite split_text_loop_lines. cbn [app].
      rewrite split_text_flush_cons, <- surjective_pairing.
      split; [reflexivity|exact Hrest].
    + left. exact Hrest.
Qed.

(** X2: apart from a leading empty line, every line of [split_text] holds
    at least one token; a first line without a token is the empty string
    and stands in front of a first token that is wider than the budget. *)
Theorem split_text_lines_have_tokens (text : str) (max_width : Z) :
  Forall (fun l => split l <> []) (tl (split_text text max_width)) /\
  (forall (l : str) (rest : list str),
      split_text text max_width = l :: rest ->
      split l = [] ->
      l = [] /\
      exists t ts, split text = t :: ts /\ len t * 5 > max_width).
Proof.
  destruct (split_text_lines_have_tokens_aux text max_width)
    as [Hall|(t & ts & rest0 & E & Hbig & Hl & Hrest)].
  - split.
    + destruct (split_text text max_width); [constructor|].
      inversion Hall; assumption.
    + intros l rest Hl Hblank. rewrite Hl in Hall.
      inversion Hall; contradiction.
  - rewrite Hl. split; [exact Hrest|].
    intros l rest Hl' _. injection Hl' as <- _.
    split; [reflexivity|]. exists t, ts. auto.
Qed.

Lemma split_text_lines_have_tokens_witness :
  exists t ts,
    split (lit "abcdefghijk xy") = t :: ts /\ len t * 5 > 50.
Proof.
  apply (split_text_lines_have_tokens (lit "abcdefghijk xy") 50)
    with (l := []) (rest := [lit "abcdefghijk"; lit "xy"]).
  - reflexivity.
  - reflexivity.
Defined.

(** X3: every line break of [split_text] was forced: the first token of
    each line after the first, put behind the line before it (with a
    space unless that line is empty), exceeds the budget. *)
Theorem split_text_breaks_forced (text : str) (max_width : Z) :
  breaks_forced max_width (split_text text max_width).
Proof.
  pose proof (split_tokens text) as Htok.
  destruct (split text) as [|t ts] eqn:E.
  - unfold split_text. rewrite E. exact I.
  - inversion Htok as [|? ? Ht Hts]; subst.
    rewrite (split_text_first text max_width t ts E).
    destruct (Z.gtb_spec (len t * 5) max_width) as [Hbig|Hfit].
    + apply (split_text_loop_forced max_width ts [ [] ] t t []); auto.
      * apply split_token. exact Ht.
      * simpl. split; [|exact I]. exists t, [].
        split; [apply split_token; exact Ht|].
        unfold candidate. cbn [truthy app].
        change (lit "") with (@nil char). cbn [app]. lia.
    + apply (split_text_loop_forced max_width ts [] t t []); auto.
      * apply split_token. exact Ht.
      * exact I.
Qed.

Lemma join_truthy (sep x : str) (rest : list str) :
  x <> [] -> truthy (join sep (x :: rest)) = true.
Proof.
  intros Hx. destruct x as [|a x]; [congruence|].
  destruct rest; reflexivity.
Qed.

(** X4: a text whose tokens, joined by single spaces, fit the budget is
    returned as that one line. *)
Theorem split_text_single_line (text : str) (max_width : Z) :
  split text <> [] ->
  len (join (lit " ") (split text)) * 5 <= max_width ->
  split_text text max_width = [join (lit " ") (split text)].
Proof.
  intros Hne Hfit.
  pose proof (split_tokens text) as Htok.
  destruct (split text) as [|t ts] eqn:E; [congruence|].
  inversion Htok as [|? ? Ht Hts]; subst.
  rewrite (split_text_first text max_width t ts E).
  pose proof (join_first_len (lit " ") t ts) as Hlen.
  destruct (Z.gtb_spec (len t * 5) max_width) as [Hbig|_];
    [exfalso; unfold str in *; lia|].
  rewrite split_text_loop_fits; [|apply Ht|exact Hfit].
  unfold split_text_flush.
  rewrite join_truthy by apply Ht. reflexivity.
Qed.

Lemma split_text_single_line_witness :
  split_text (lit "C++,  Rust,   Go ") 500 = [lit "C++, Rust, Go"].
Proof.
  apply (split_text_single_line (lit "C++,  Rust,   Go ") 500).
  - vm_compute. discriminate.
  - vm_compute. discriminate.
Defined.

Lemma has_token_count (lines : list str) :
  Forall (fun l => split l <> []) lines ->
  (List.length lines <= List.length (concat (map split lines)))%nat.
Proof.
  induction 1 as [|l lines Hl _ IH]; simpl; [lia|].
  rewrite length_app. destruct (split l); [congruence|]. simpl. lia.
Qed.

(** X5: [split_text] returns at most one line per token, plus the one
    empty line in front of an overlong first token. *)
Theorem split_text_line_count (text : str) (max_width : Z) :
  (List.length (split_text text max_width) <=
   List.length (split text)
   + (match split text with
      | t :: _ => if len t * 5 >? max_width then 1 else 0
      | [] => 0
      end))%nat.
Proof.
  pose proof (split_text_tokens text max_width) as Htok.
  destruct (split_text_lines_have_tokens_aux text max_width) as [Hall|Hslip].
  - apply has_token_count in Hall. rewrite Htok in Hall. lia.
  - destruct Hslip as (t & ts & rest & E & Hbig & Hl & Hrest).
    rewrite E. destruct (Z.gtb_spec (len t * 5) max_width); [|lia].
    rewrite Hl in Htok |- *. simpl in Htok.
    apply has_token_count in Hrest. rewrite Htok, E in Hrest.
    simpl in *. lia.
Qed.

(** ** More on the grammar correction *)

Lemma lstrip_nil_iff (s : str) :
  lstrip s = [] <-> Forall (fun x => is_space x = true) s.
Proof.
  induction s as [|x s IH]; simpl.
  - split; auto.
  - destruct (is_space x) eqn:Ex.
    + rewrite IH. split; intros H; [constructor; assumption|].
      inversion H; assumption.
    + split; [discriminate|]. intros H. inversion H; congruence.
Qed.

Lemma lstrip_head (s : str) (x : char) (r : str) :
  lstrip s = x :: r -> is_space x = false.
Proof.
  induction s as [|a s IH]; simpl; intros H; [discriminate|].
  destruct (is_space a) eqn:Ea; [auto|]. injection H as <- _. exact Ea.
Qed.

Lemma strip_nil_iff (s : str) :
  strip s = [] <-> Forall (fun x => is_space x = true) s.
Proof.
  unfold strip, rstrip. split.
  - intros H. apply (f_equal (@rev char)) in H.
    rewrite rev_involutive in H. simpl in H.
    apply lstrip_nil_iff in H. apply Forall_rev in H.
    rewrite rev_involutive in H.
    apply lstrip_nil_iff.
    destruct (lstrip s) as [|x r] eqn:E; [reflexivity|].
    exfalso. inversion H as [|? ? Hx _]; subst.
    rewrite (lstrip_head s x r E) in Hx. discriminate.
  - intros H. apply lstrip_nil_iff in H. rewrite H. reflexivity.
Qed.

(** X6: [correct_text] contacts the service exactly when the text holds a
    code point that is not whitespace, and then exactly once; otherwise it
    returns the text at once. *)
Theorem correct_text_requests (LT_USERNAME LT_API_KEY : option str)
    (post : Request -> PostOutcome) (text : str) :
  let out := correct_text LT_USERNAME LT_API_KEY post text in
  (snd out = [] <-> Forall (fun x => is_space x = true) text) /\
  (snd out = [] -> fst out = text) /\
  (snd out <> [] ->
   snd out = [correct_text_request LT_USERNAME LT_API_KEY text]).
Proof.
  cbv zeta. unfold correct_text.
  destruct (truthy (strip text)) eqn:Es.
  - assert (Htext : truthy text = true).
    { destruct text; [discriminate Es|reflexivity]. }
    assert (Hns : ~ Forall (fun x => is_space x = true) text).
    { intros HF. apply strip_nil_iff in HF. rewrite HF in Es.
      discriminate. }
    rewrite Htext. cbn [negb orb snd fst].
    repeat split; intros; try discriminate; try contradiction.
  - assert (Hs : Forall (fun x => is_space x = true) text).
    { apply strip_nil_iff, truthy_false. exact Es. }
    rewrite orb_true_r. cbn [snd fst].
    repeat split; intros; auto; congruence.
Qed.

(** *** The order in which matches are applied *)

Lemma insert_desc_perm (m : Z * Match) (l : list (Z * Match)) :
  Permutation (insert_desc m l) (m :: l).
Proof.
  induction l as [|x l IH]; simpl; [reflexivity|].
  destruct (fst x <=? fst m); [reflexivity|].
  rewrite IH. apply perm_swap.
Qed.

Lemma sort_desc_perm (l : list (Z * Match)) : Permutation (sort_desc l) l.
Proof.
  induction l as [|m l IH]; simpl; [reflexivity|].
  rewrite insert_desc_perm. constructor. exact IH.
Qed.

Lemma insert_desc_sorted (m : Z * Match) (l : list (Z * Match)) :
  Sorted (fun a b => fst b <= fst a) l ->
  Sorted (fun a b => fst b <= fst a) (insert_desc m l).
Proof.
  induction 1 as [|x l Hs IH Hhd]; simpl.
  - repeat constructor.
  - destruct (Z.leb_spec (fst x) (fst m)) as [Hle|Hgt].
    + constructor; [constructor; assumption|]. constructor. exact Hle.
    + constructor; [exact IH|].
      destruct l as [|x2 l]; simpl.
      * constructor. lia.
      * destruct (fst x2 <=? fst m); constructor; [lia|].
        inversion Hhd; assumption.
Qed.

Lemma insert_desc_filter (k : Z) (m : Z * Match) (l : list (Z * Match)) :
  filter (fun x => fst x =? k) (insert_desc m l) =
  filter (fun x => fst x =? k) (m :: l).
Proof.
  induction l as [|x l IH]; [reflexivity|].
  cbn [insert_desc].
  destruct (Z.leb_spec (fst x) (fst m)) as [Hle|Hgt]; [reflexivity|].
  cbn [filter] in *. rewrite IH.
  destruct (Z.eqb_spec (fst x) k) as [Ex|Nx];
    destruct (Z.eqb_spec (fst m) k) as [Em|Nm]; try reflexivity.
  exfalso. lia.
Qed.

(** X7: the order in which [correct_text] applies the matches: all of
    them, each once, by descending offset, and matches with the same
    offset in the order of the response. *)
Theorem sort_desc_spec (keyed : list (Z * Match)) :
  Permutation (sort_desc keyed) keyed /\
  Sorted (fun a b => fst b <= fst a) (sort_desc keyed) /\
  (forall k : Z,
      filter (fun x => fst x =? k) (sort_desc keyed) =
      filter (fun x => fst x =? k) keyed).
Proof.
  split; [apply sort_desc_perm|]. split.
  - induction keyed as [|m l IH]; simpl; [constructor|].
    apply insert_desc_sorted. exact IH.
  - intros k. induction keyed as [|m l IH]; [reflexivity|].
    cbn [sort_desc fold_right]. fold (sort_desc l).
    rewrite insert_desc_filter. cbn [filter]. rewrite IH. reflexivity.
Qed.

Lemma correct_text_requests_witness :
  fst (correct_text None None (fun _ => PostRaises) (lit "  ")) = lit "  ".
Proof.
  apply (correct_text_requests None None (fun _ => PostRaises) (lit "  ")).
  reflexivity.
Defined.

(** *** Replacing at the offsets of the original text *)

Lemma slice_bound_inside (s : str) (i : Z) :
  0 <= i <= len s -> slice_bound s i = Z.to_nat i.
Proof.
  intros Hi. unfold slice_bound.
  destruct (Z.ltb_spec i 0); [lia|]. f_equal. lia.
Qed.

Lemma slice_to_app (a b : str) (i : Z) :
  0 <= i <= len a -> slice_to (a ++ b) i = firstn (Z.to_nat i) a.
Proof.
  intros Hi. unfold slice_to.
  rewrite slice_bound_inside by (rewrite len_app; pose proof (len_nonneg b); lia).
  rewrite firstn_app.
  replace (Z.to_nat i - List.length a)%nat with 0%nat
    by (unfold len in Hi; lia).
  simpl. apply app_nil_r.
Qed.

Lemma slice_from_app (a b : str) (i : Z) :
  0 <= i <= len a -> slice_from (a ++ b) i = skipn (Z.to_nat i) a ++ b.
Proof.
  intros Hi. unfold slice_from.
  rewrite slice_bound_inside by (rewrite len_app; pose proof (len_nonneg b); lia).
  rewrite skipn_app.
  replace (Z.to_nat i - List.length a)%nat with 0%nat
    by (unfold len in Hi; lia).
  reflexivity.
Qed.

Lemma desc_ok_weaken (kms : list (Z * Match)) (bound bound' : Z) :
  bound <= bound' -> desc_ok bound kms -> desc_ok bound' kms.
Proof.
  intros Hle. destruct kms as [|[o m] rest]; simpl; [auto|].
  intros (Ho & (l & Hl & Hl0 & Hb) & Ho0 & Hrest).
  repeat split; auto. exists l. repeat split; auto. lia.
Qed.

(** What one in-bounds match does to a text. *)
Lemma apply_match_inside (text : str) (o : Z) (m : Match) (rest : list (Z * Match)) :
  desc_ok (len text) ((o, m) :: rest) ->
  apply_match text (o, m) = Some (spliced text [(o, m)]) /\
  (dict_get (m_replacements m) [] <> [] ->
   forall tail : str,
     apply_match (text ++ tail) (o, m) =
     Some (firstn (Z.to_nat o) text
           ++ (match dict_get (m_replacements m) [] with
               | first :: _ => dict_get (value first) (lit "")
               | [] => []
               end)
           ++ skipn (Z.to_nat (o + dict_get (m_length m) 0)) text ++ tail)).
Proof.
  intros (Ho & (l & Hl & Hl0 & Hb) & Ho0 & _).
  unfold apply_match. cbn [snd spliced]. rewrite Ho, Hl. cbn [dict_get].
  destruct (dict_get (m_replacements m) []) as [|first more] eqn:Er.
  - split; [reflexivity|congruence].
  - split.
    + f_equal. unfold slice_to, slice_from.
      rewrite !slice_bound_inside by lia. reflexivity.
    + intros _ tail. f_equal.
      rewrite slice_to_app, slice_from_app by lia. reflexivity.
Qed.

Lemma apply_matches_prefix (kms : list (Z * Match)) (a b : str) :
  desc_ok (len a) kms ->
  apply_matches (a ++ b) kms =
  option_map (fun a' => a' ++ b) (apply_matches a kms).
Proof.
  revert a. induction kms as [|[o m] rest IH]; intros a Hok; [reflexivity|].
  pose proof Hok as (Ho & (l & Hl & Hl0 & Hb) & Ho0 & Hrest).
  destruct (apply_match_inside a o m rest Hok) as [Hone Htail].
  cbn [apply_matches]. rewrite Hone. cbn [spliced].
  destruct (dict_get (m_replacements m) []) as [|first more] eqn:Er.
  - unfold apply_match. cbn [snd]. rewrite Er.
    apply IH. apply desc_ok_weaken with o; [lia|exact Hrest].
  - rewrite (Htail ltac:(discriminate) b).
    set (a' := firstn (Z.to_nat o) a ++ dict_get (value first) (lit "")
               ++ skipn (Z.to_nat (o + dict_get (m_length m) 0)) a).
    replace (firstn (Z.to_nat o) a ++ dict_get (value first) (lit "")
             ++ skipn (Z.to_nat (o + dict_get (m_length m) 0)) a ++ b)
      with (a' ++ b)
      by (unfold a'; rewrite <- !app_assoc; reflexivity).
    apply IH. apply desc_ok_weaken with o; [|exact Hrest].
    unfold a'. rewrite len_app. unfold len at 1.
    rewrite length_firstn. unfold len in Hb.
    pose proof (len_nonneg (dict_get (value first) (lit "")
               ++ skipn (Z.to_nat (o + dict_get (m_length m) 0)) a)). lia.
Qed.

Lemma apply_matches_spliced (kms : list (Z * Match)) (text : str) :
  desc_ok (len text) kms ->
  apply_matches text kms = Some (spliced text kms).
Proof.
  revert text. induction kms as [|[o m] rest IH]; intros text Hok;
    [reflexivity|].
  pose proof Hok as (Ho & (l & Hl & Hl0 & Hb) & Ho0 & Hrest).
  destruct (apply_match_inside text o m rest Hok) as [Hone _].
  cbn [apply_matches]. rewrite Hone. cbn [spliced].
  destruct (dict_get (m_replacements m) []) as [|first more] eqn:Er.
  - apply IH. apply desc_ok_weaken with o; [lia|exact Hrest].
  - assert (Hlen : len (firstn (Z.to_nat o) text) = o).
    { unfold len in *. rewrite length_firstn. lia. }
    rewrite apply_matches_prefix by (rewrite Hlen; exact Hrest).
    rewrite IH by (rewrite Hlen; exact Hrest).
    reflexivity.
Qed.

(** X8: when the matches of a response, taken by descending offset, lie
    inside the text and do not overlap, every replacement lands at the
    offsets of the original text: the result is the original text before
    the match (with the lower matches replaced in the same way), the first
    offered replacement, and the original text behind the match. *)
Theorem apply_result_splices (text : str) (result : CheckResult)
    (keyed : list (Z * Match)) :
  keyed_matches (dict_get (matches result) []) = Some keyed ->
  desc_ok (len text) (sort_desc keyed) ->
  apply_result text result = Some (spliced text (sort_desc keyed)).
Proof.
  intros Hk Hok. unfold apply_result. rewrite Hk.
  apply apply_matches_spliced. exact Hok.
Qed.

Lemma apply_result_splices_witness :
  let fix_typo :=
    mkMatch (Some 0) (Some 4) (Some [mkReplacement (Some (lit "Hello"))]) in
  let fix_end :=
    mkMatch (Some 5) (Some 4) (Some [mkReplacement (Some (lit "world"))]) in
  apply_result (lit "helo wrld!")
    (mkCheckResult (Some [fix_typo; fix_end])) =
  Some (lit "Hello world!").
Proof.
  intros fix_typo fix_end.
  apply (apply_result_splices (lit "helo wrld!")
           (mkCheckResult (Some [fix_typo; fix_end]))
           [(0, fix_typo); (5, fix_end)]).
  - reflexivity.
  - vm_compute.
    repeat split; try reflexivity; try discriminate;
      exists 4; repeat split; try reflexivity; discriminate.
Defined.

Lemma apply_matches_no_replacement (text : str) (kms : list (Z * Match)) :
  Forall (fun km => dict_get (m_replacements (snd km)) [] = []) kms ->
  apply_matches text kms = Some text.
Proof.
  induction 1 as [|km kms Hkm _ IH]; [reflexivity|].
  cbn [apply_matches]. unfold apply_match. rewrite Hkm. exact IH.
Qed.

Lemma keyed_matches_snd (ms : list Match) (keyed : list (Z * Match)) :
  keyed_matches ms = Some keyed -> map snd keyed = ms.
Proof.
  revert keyed. induction ms as [|m ms IH]; intros keyed; simpl.
  - intros H. injection H as <-. reflexivity.
  - destruct (m_offset m); [|discriminate].
    destruct (keyed_matches ms) as [ks|]; [|discriminate].
    intros H. injection H as <-. simpl. f_equal. apply IH. reflexivity.
Qed.

(** X9: when no match of the response offers a replacement,
    [correct_text] returns the text unchanged, whatever else the matches
    hold. *)
Theorem correct_text_no_replacement (LT_USERNAME LT_API_KEY : option str)
    (post : Request -> PostOutcome) (text : str) (result : CheckResult) :
  post (correct_text_request LT_USERNAME LT_API_KEY text) =
    Response 200 (Json result) ->
  Forall (fun m => dict_get (m_replacements m) [] = [])
    (dict_get (matches result) []) ->
  fst (correct_text LT_USERNAME LT_API_KEY post text) = text.
Proof.
  intros Hpost Hnone. unfold correct_text.
  destruct (negb (truthy text) || negb (truthy (strip text)))%bool;
    [reflexivity|].
  cbn [fst]. rewrite Hpost. cbn [Z.eqb Pos.eqb negb].
  unfold apply_result.
  destruct (keyed_matches (dict_get (matches result) [])) as [keyed|] eqn:Ek;
    [|reflexivity].
  rewrite apply_matches_no_replacement; [reflexivity|].
  apply keyed_matches_snd in Ek.
  rewrite Forall_forall in *. intros km Hin.
  apply Hnone. rewrite <- Ek. apply in_map.
  apply (Permutation_in _ (sort_desc_perm keyed)). exact Hin.
Qed.

Lemma correct_text_no_replacement_witness :
  let flagged := mkMatch (Some 0) None (Some []) in
  fst (correct_text None None
         (fun _ => Response 200 (Json (mkCheckResult (Some [flagged]))))
         (lit "helo wrld")) = lit "helo wrld".
Proof.
  intros flagged.
  apply (correct_text_no_replacement None None _ (lit "helo wrld")
           (mkCheckResult (Some [flagged]))).
  - reflexivity.
  - repeat constructor.
Defined.

(** ** Correcting a whole document *)

(** Induction on a JSON value, with the property at hand for every item
    of a list and every value of a dictionary. *)
Lemma JsonValue_ind (P : JsonValue -> Prop) :
  (forall v, P (JOther v)) ->
  (forall s, P (JStr s)) ->
  (forall items, Forall P items -> P (JList items)) ->
  (forall items, Forall (fun kv => P (snd kv)) items -> P (JDict items)) ->
  forall data, P data.
Proof.
  intros Hother Hstr Hlist Hdict.
  fix IH 1. intros [v|s|items|items].
  - apply Hother.
  - apply Hstr.
  - apply Hlist. induction items as [|item items IHitems]; constructor.
    + apply IH.
    + exact IHitems.
  - apply Hdict. induction items as [|[k v] items IHitems]; constructor.
    + apply IH.
    + exact IHitems.
Qed.

Lemma correct_text_sent (U K : option str) (post : Request -> PostOutcome)
    (text : str) :
  snd (correct_text U K post text) =
  if truthy (strip text) then [correct_text_request U K text] else [].
Proof.
  unfold correct_text. destruct (truthy (strip text)) eqn:Es.
  - assert (Htext : truthy text = true).
    { destruct text; [discriminate Es|reflexivity]. }
    rewrite Htext. reflexivity.
  - rewrite orb_true_r. reflexivity.
Qed.


Section CorrectResume.

Variables LT_USERNAME LT_API_KEY : option str.
Variable post : nat -> Request -> PostOutcome.

Local Abbreviation correct := (correct_resume LT_USERNAME LT_API_KEY post).

Lemma correct_resume_skeleton (data : JsonValue) (sent : nat) :
  skeleton (fst (correct data sent)) = skeleton data.
Proof.
  revert sent. induction data as [v|s|items IH|items IH] using JsonValue_ind;
    intros sent; cbn [correct_resume].
  - reflexivity.
  - destruct (correct_text _ _ _ s). reflexivity.
  - enough (H : map skeleton (fst (correct_items correct items sent)) =
                map skeleton items).
    { destruct (correct_items correct items sent). cbn [fst skeleton] in *.
      rewrite H. reflexivity. }
    revert sent. induction IH as [|item items Hitem _ IHitems]; intros sent;
      [reflexivity|].
    cbn [correct_items]. specialize (Hitem sent).
    destruct (correct item sent) as [item' r1].
    specialize (IHitems (sent + List.length r1)%nat).
    destruct (correct_items correct items _) as [rest' r2].
    cbn [fst map] in *. rewrite Hitem, IHitems. reflexivity.
  - enough (H : map (fun kv => (fst kv, skeleton (snd kv)))
                  (fst (correct_fields correct items sent)) =
                map (fun kv => (fst kv, skeleton (snd kv))) items).
    { destruct (correct_fields correct items sent). cbn [fst skeleton] in *.
      rewrite H. reflexivity. }
    revert sent. induction IH as [|[k v] items Hv _ IHitems]; intros sent;
      [reflexivity|].
    cbn [correct_fields]. cbn [snd] in Hv. specialize (Hv sent).
    destruct (correct v sent) as [v' r1].
    specialize (IHitems (sent + List.length r1)%nat).
    destruct (correct_fields correct items _) as [rest' r2].
    cbn [fst snd map] in *. rewrite Hv, IHitems. reflexivity.
Qed.

Lemma correct_resume_sent (data : JsonValue) (sent : nat) :
  snd (correct data sent) =
  map (correct_text_request LT_USERNAME LT_API_KEY)
    (filter (fun s => truthy (strip s)) (strings data)).
Proof.
  revert sent. induction data as [v|s|items IH|items IH] using JsonValue_ind;
    intros sent; cbn [correct_resume strings].
  - reflexivity.
  - pose proof (correct_text_sent LT_USERNAME LT_API_KEY (post sent) s) as H.
    destruct (correct_text _ _ _ s) as [s' reqs]. cbn [snd filter] in *.
    rewrite H. destruct (truthy (strip s)); reflexivity.
  - enough (H : snd (correct_items correct items sent) =
                map (correct_text_request LT_USERNAME LT_API_KEY)
                  (filter (fun s => truthy (strip s))
                     (flat_map strings items))).
    { destruct (correct_items correct items sent). exact H. }
    revert sent. induction IH as [|item items Hitem _ IHitems]; intros sent;
      [reflexivity|].
    cbn [correct_items flat_map]. specialize (Hitem sent).
    destruct (correct item sent) as [item' r1].
    specialize (IHitems (sent + List.length r1)%nat).
    destruct (correct_items correct items _) as [rest' r2].
    cbn [snd] in *. rewrite filter_app, map_app, Hitem, IHitems.
    reflexivity.
  - enough (H : snd (correct_fields correct items sent) =
                map (correct_text_request LT_USERNAME LT_API_KEY)
                  (filter (fun s => truthy (strip s))
                     (flat_map (fun kv => strings (snd kv)) items))).
    { destruct (correct_fields correct items sent). exact H. }
    revert sent. induction IH as [|[k v] items Hv _ IHitems]; intros sent;
      [reflexivity|].
    cbn [correct_fields flat_map]. cbn [snd] in Hv. specialize (Hv sent).
    destruct (correct v sent) as [v' r1].
    specialize (IHitems (sent + List.length r1)%nat).
    destruct (correct_fields correct items _) as [rest' r2].
    cbn [snd] in *. rewrite filter_app, map_app, Hv, IHitems.
    reflexivity.
Qed.


End CorrectResume.

(** X10: [correct_resume] keeps the form of the document: the nesting,
    the dictionary keys and their order, the length and order of every
    list and every value that is not a string are those of the input;
    only string values can differ. *)
Theorem correct_resume_keeps_form (LT_USERNAME LT_API_KEY : option str)
    (post : nat -> Request -> PostOutcome) (data : JsonValue) :
  skeleton (fst (correct_resume LT_USERNAME LT_API_KEY post data 0)) =
  skeleton data.
Proof. apply correct_resume_skeleton. Qed.

(** X11: [correct_resume] makes one request for every string value that
    holds a code point other than whitespace, in document order, and no
    other request: dictionary keys, blank strings and the answers of the
    service have no part in what is sent. *)
Theorem correct_resume_requests (LT_USERNAME LT_API_KEY : option str)
    (post : nat -> Request -> PostOutcome) (data : JsonValue) :
  snd (correct_resume LT_USERNAME LT_API_KEY post data 0) =
  map (correct_text_request LT_USERNAME LT_API_KEY)
    (filter (fun s => truthy (strip s)) (strings data)).
Proof. apply correct_resume_sent. Qed.



(** ** What a rendered resume shows *)

Lemma scan_app (pen : Pen) (ks1 ks2 : list canvas_call) :
  scan pen (ks1 ++ ks2) =
  (fst (scan pen ks1) ++ fst (scan (snd (scan pen ks1)) ks2),
   snd (scan (snd (scan pen ks1)) ks2)).
Proof.
  revert pen. induction ks1 as [|k ks1 IH]; intros pen.
  - simpl. destruct (scan pen ks2). reflexivity.
  - cbn [app scan]. destruct (canvas_step pen k) as [shown pen1].
    rewrite IH. destruct (scan pen1 ks1) as [more pen2]. cbn [fst snd].
    destruct (scan pen2 ks2). cbn [fst snd]. rewrite app_assoc. reflexivity.
Qed.

Section Draws.

Variable pen0 : Pen.

Lemma draws_conseq {A : Type} (pen : Pen) (m : M A)
    (shown shown' : list DrawPrimitive) (pen' pen'' : Pen) (cost cost' : Z) :
  draws pen0 pen m shown pen' cost ->
  shown = shown' -> pen' = pen'' -> cost = cost' ->
  draws pen0 pen m shown' pen'' cost'.
Proof. intros H <- <- <-. exact H. Qed.

Lemma draws_ret {A : Type} (pen : Pen) (a : A) : draws pen0 pen (ret a) [] pen 0.
Proof.
  intros st before Hs. cbn. rewrite app_nil_r. split; [exact Hs|lia].
Qed.

Lemma draws_bind {A B : Type} (pen pen1 pen2 : Pen) (m : M A) (k : A -> M B)
    (shown1 shown2 : list DrawPrimitive) (cost1 cost2 : Z) :
  draws pen0 pen m shown1 pen1 cost1 ->
  (forall a, draws pen0 pen1 (k a) shown2 pen2 cost2) ->
  draws pen0 pen (bind m k) (shown1 ++ shown2) pen2 (cost1 + cost2).
Proof.
  intros Hm Hk st before Hs. rewrite exec_bind.
  change (snd (m st)) with (exec m st).
  destruct (Hm st before Hs) as [Hs1 Hy1].
  destruct (Hk (fst (m st)) (exec m st) _ Hs1) as [Hs2 Hy2].
  split.
  - rewrite Hs2, app_assoc. reflexivity.
  - rewrite Hy2, Hy1. lia.
Qed.

Lemma draws_get_y (pen : Pen) : draws pen0 pen get_y [] pen 0.
Proof. apply (draws_ret pen tt). Qed.

Lemma draws_sub_y (pen : Pen) (amount : Z) :
  draws pen0 pen (sub_y amount) [] pen amount.
Proof.
  intros st before Hs. cbn. rewrite app_nil_r. split; [exact Hs|reflexivity].
Qed.

Lemma draws_call (pen : Pen) (k : canvas_call) :
  draws pen0 pen (call k) (fst (canvas_step pen k)) (snd (canvas_step pen k)) 0.
Proof.
  intros st before Hs. cbn. rewrite scan_app, Hs. cbn [fst snd scan].
  destruct (canvas_step pen k). cbn [fst snd]. rewrite app_nil_r.
  split; [reflexivity|lia].
Qed.

Lemma draws_drawString (pen : Pen) (x y0 : Z) (text : str) :
  draws pen0 pen (call (drawString x y0 text))
    [TextRun text (pen_font pen) (pen_size pen) (pen_fill pen)] pen 0.
Proof. apply (draws_call pen (drawString x y0 text)). Qed.

Lemma draws_when (pen pen' : Pen) (b : bool) (body : M unit)
    (shown : list DrawPrimitive) (cost : Z) :
  draws pen0 pen body shown pen' cost ->
  draws pen0 pen (when b body) (if b then shown else [])
    (if b then pen' else pen) (if b then cost else 0).
Proof. intros H. destruct b; [exact H|apply draws_ret]. Qed.

(** A loop whose body leaves the pen as it found it. *)
Lemma draws_for_each {A : Type} (pen : Pen) (items : list A)
    (body : A -> M unit) (shown : A -> list DrawPrimitive) (cost : A -> Z) :
  (forall x, draws pen0 pen (body x) (shown x) pen (cost x)) ->
  draws pen0 pen (for_each items body) (flat_map shown items) pen
    (sum_Z (map cost items)).
Proof.
  intros Hb. induction items as [|x items IH]; cbn [for_each flat_map map].
  - apply draws_ret.
  - apply (draws_bind pen pen pen); [apply Hb|intros _; exact IH].
Qed.

(** A loop whose body sets the pen before it draws. *)
Lemma draws_for_each_any {A : Type} (items : list A)
    (body : A -> M unit) (shown : A -> list DrawPrimitive) (cost : A -> Z)
    (out : A -> Pen) (pen : Pen) :
  (forall x pen1, draws pen0 pen1 (body x) (shown x) (out x) (cost x)) ->
  draws pen0 pen (for_each items body) (flat_map shown items)
    (fold_left (fun _ x => out x) items pen)
    (sum_Z (map cost items)).
Proof.
  intros Hb. revert pen.
  induction items as [|x items IH]; intros pen;
    cbn [for_each flat_map map fold_left].
  - apply draws_ret.
  - apply (draws_bind pen (out x)); [apply Hb|intros _; apply IH].
Qed.

Lemma draws_add_section_header (pen : Pen) (gs : bool) (title : str) :
  draws pen0 pen (add_section_header gs title) (rendered_header gs title)
    (mkPen "Helvetica-Bold" 14
       (if gs then heading_color else mkColor 0.3 0.8 0.9)) 17.
Proof.
  intros st before Hs. rewrite add_section_header_exec. cbn [y c].
  split; [|lia].
  destruct gs; cbn [draw_gradient_line snd heading_canvas canvas_do calls];
    rewrite <- !app_assoc; rewrite scan_app, Hs; reflexivity.
Qed.

Ltac draws :=
  repeat lazymatch goal with
    | |- draws _ _ (add_section_header _ _) _ _ _ =>
        apply draws_add_section_header
    | |- draws _ _ (sub_y _) _ _ _ => apply draws_sub_y
    | |- draws _ _ get_y _ _ _ => apply draws_get_y
    | |- draws _ _ (call (drawString _ _ _)) _ _ _ => apply draws_drawString
    | |- draws _ _ (call _) _ _ _ => apply draws_call
    | |- draws _ _ (ret _) _ _ _ => apply draws_ret
    | |- draws _ _ (when _ _) _ _ _ => eapply draws_when
    | |- draws _ _ (bind _ _) _ _ _ => eapply draws_bind; [|intros ?]
    end.

Lemma draws_draw_wrapped (pen : Pen) (text : str) :
  draws pen0 pen (draw_wrapped text)
    (map (fun line => TextRun line (pen_font pen) (pen_size pen) (pen_fill pen))
       (split_text text 500))
    pen (12 * Z.of_nat (List.length (split_text text 500))).
Proof.
  unfold draw_wrapped.
  eapply draws_conseq.
  - apply (draws_for_each pen _ _
             (fun line => [TextRun line (pen_font pen) (pen_size pen)
                             (pen_fill pen)])
             (fun _ => 12)).
    intros line. eapply draws_conseq; [draws| | |]; reflexivity.
  - induction (split_text text 500) as [|l ls IH]; [reflexivity|].
    simpl. rewrite IH. reflexivity.
  - reflexivity.
  - induction (split_text text 500) as [|l ls IH]; [reflexivity|].
    cbn [map sum_Z fold_right List.length]. fold (sum_Z (map (fun _ : str => 12) ls)).
    rewrite IH. lia.
Qed.

Lemma draws_draw_entry (pen : Pen) (title dates desc : str) :
  truthy dates = true ->
  draws pen0 pen (draw_entry title dates desc) (rendered_entry title dates desc)
    (if truthy desc then mkPen "Helvetica" 10 body_color
     else mkPen "Helvetica-Oblique" 8 body_color)
    (entry_height desc).
Proof.
  intros Hd. unfold draw_entry. rewrite Hd. cbn [when].
  eapply draws_conseq.
  - do 6 (eapply draws_bind; [draws|intros ?]).
    eapply draws_bind; [|intros ?; apply draws_sub_y].
    eapply draws_when.
    eapply draws_bind; [draws|intros ?]. apply draws_draw_wrapped.
  - cbn [canvas_step fst snd pen_font pen_size pen_fill app].
    unfold rendered_entry, rendered_body. cbn [app].
    destruct (truthy desc) eqn:Et; [rewrite app_nil_r; reflexivity|].
    apply truthy_false in Et. subst desc. reflexivity.
  - cbn [canvas_step fst snd pen_font pen_size pen_fill].
    destruct (truthy desc); reflexivity.
  - unfold entry_height, body_height.
    destruct (truthy desc) eqn:Et; [lia|].
    apply truthy_false in Et. subst desc. reflexivity.
Qed.

End Draws.

Ltac draws_blocks :=
  repeat lazymatch goal with
    | |- draws _ _ (add_section_header _ _) _ _ _ =>
        apply draws_add_section_header
    | |- draws _ _ (draw_wrapped _) _ _ _ => apply draws_draw_wrapped
    | |- draws _ _ (sub_y _) _ _ _ => apply draws_sub_y
    | |- draws _ _ get_y _ _ _ => apply draws_get_y
    | |- draws _ _ (call (drawString _ _ _)) _ _ _ => apply draws_drawString
    | |- draws _ _ (call _) _ _ _ => apply draws_call
    | |- draws _ _ (ret _) _ _ _ => apply draws_ret
    | |- draws _ _ (when _ _) _ _ _ => eapply draws_when
    | |- draws _ _ (bind _ _) _ _ _ => eapply draws_bind; [|intros ?]
    end.

Lemma draws_draw_name (pen0 pen : Pen) (resume : Resume) :
  draws pen0 pen (draw_name resume)
    [ TextRun (dict_get (name (dict_get (personal resume) empty_personal))
                 (lit "Resume")) "Helvetica-Bold" 22 heading_color ]
    (mkPen "Helvetica-Bold" 22 heading_color) 28.
Proof.
  unfold draw_name. cbv zeta.
  eapply draws_conseq; [draws_blocks| | |]; reflexivity.
Qed.

Lemma draws_draw_contacts (pen0 pen : Pen) (resume : Resume) :
  let lines := contact_lines (dict_get (personal resume) empty_personal) in
  draws pen0 pen (draw_contacts resume)
    (map (fun line => TextRun line "Helvetica" 10 contact_color) lines)
    (mkPen "Helvetica" 10 contact_color)
    (14 * Z.of_nat (List.length lines) + 12).
Proof.
  intros lines. unfold draw_contacts. cbv zeta.
  fold (contact_lines (dict_get (personal resume) empty_personal)).
  fold lines.
  eapply draws_conseq.
  - do 2 (eapply draws_bind; [draws_blocks|intros ?]).
    eapply draws_bind; [|intros ?; apply draws_sub_y].
    apply (draws_for_each pen0 _ lines _
             (fun line => [TextRun line "Helvetica" 10 contact_color])
             (fun _ => 14)).
    intros line. eapply draws_conseq; [draws_blocks| | |]; reflexivity.
  - cbn [canvas_step fst snd app]. rewrite app_nil_r.
    induction lines as [|l ls IH]; [reflexivity|].
    simpl. rewrite IH. reflexivity.
  - reflexivity.
  - cbn [canvas_step fst snd].
    assert (E : sum_Z (map (fun _ : str => 14) lines) =
                14 * Z.of_nat (List.length lines)).
    { induction lines as [|l ls IH]; [reflexivity|].
      cbn [map sum_Z fold_right List.length].
      fold (sum_Z (map (fun _ : str => 14) ls)). rewrite IH. lia. }
    rewrite E. lia.
Qed.

Lemma draws_text_section (pen0 pen : Pen) (gs : bool) (title text : str)
    {A : Type} (items : list A) :
  draws pen0 pen
    (when (truthy items)
       (add_section_header gs title ;;
        call (setFont "Helvetica" 10) ;;
        call (setFillColor body_color) ;;
        draw_wrapped text ;;
        sub_y 12))
    (rendered_section gs title items (rendered_body text))
    (if truthy items then mkPen "Helvetica" 10 body_color else pen)
    (section_height items (body_height text)).
Proof.
  eapply draws_conseq; [draws_blocks| | |].
  - unfold rendered_section, rendered_header, rendered_body.
    destruct (truthy items); [|reflexivity].
    cbn [canvas_step fst snd pen_font pen_size pen_fill app].
    rewrite app_nil_r. reflexivity.
  - destruct (truthy items); reflexivity.
  - unfold section_height, body_height. destruct (truthy items); lia.
Qed.

Lemma draws_entry_section (pen0 pen : Pen) (gs : bool) (title : str)
    {A : Type} (items : list A) (body : A -> M unit)
    (entry_title entry_dates entry_desc : A -> str) :
  (forall x, body x =
             draw_entry (entry_title x) (entry_dates x) (entry_desc x)) ->
  (forall x, truthy (entry_dates x) = true) ->
  exists pen',
    draws pen0 pen
      (when (truthy items)
         (add_section_header gs title ;;
          for_each items body ;;
          sub_y 12))
      (rendered_section gs title items
         (flat_map (fun x => rendered_entry (entry_title x) (entry_dates x)
                               (entry_desc x)) items))
      pen'
      (section_height items
         (sum_Z (map (fun x => entry_height (entry_desc x)) items))).
Proof.
  intros Hbody Hdates. eexists.
  eapply draws_conseq.
  - eapply draws_when.
    eapply draws_bind; [apply draws_add_section_header|intros ?].
    eapply draws_bind; [|intros ?; apply draws_sub_y].
    apply (draws_for_each_any pen0 items body
             (fun x => rendered_entry (entry_title x) (entry_dates x)
                         (entry_desc x))
             (fun x => entry_height (entry_desc x))
             (fun x => if truthy (entry_desc x)
                       then mkPen "Helvetica" 10 body_color
                       else mkPen "Helvetica-Oblique" 8 body_color)).
    intros x pen1. rewrite Hbody. apply draws_draw_entry. apply Hdates.
  - unfold rendered_section. destruct (truthy items); [|reflexivity].
    rewrite app_nil_r. reflexivity.
  - reflexivity.
  - unfold section_height. destruct (truthy items); lia.
Qed.

Lemma draws_generate_pdf_body (pen0 : Pen) (gs : bool) (resume : Resume) :
  exists pen',
    draws pen0 pen0 (generate_pdf_body gs resume) (rendered gs resume)
      pen' (page_used resume).
Proof.
  unfold generate_pdf_body.
  pose proof (fun pen =>
    draws_text_section pen0 pen gs (lit "Summary")
      (dict_get (summary resume) (lit ""))
      (dict_get (summary resume) (lit ""))) as Hsummary.
  pose proof (fun pen =>
    draws_text_section pen0 pen gs (lit "Skills")
      (join (lit ", ") (dict_get (skills resume) []))
      (dict_get (skills resume) [])) as Hskills.
  pose proof (fun pen =>
    draws_entry_section pen0 pen gs (lit "Experience")
      (dict_get (experience resume) []) experience_entry
      experience_title experience_dates
      (fun exp => dict_get (exp_description exp) (lit ""))
      (fun x => eq_refl) experience_dates_truthy) as Hexp.
  pose proof (fun pen =>
    draws_entry_section pen0 pen gs (lit "Education")
      (dict_get (education resume) []) education_entry
      education_degree education_dates
      (fun edu => dict_get (edu_description edu) (lit ""))
      (fun x => eq_refl) education_dates_truthy) as Hedu.
  set (pen1 := mkPen "Helvetica" 10 contact_color).
  set (pen2 := if truthy (dict_get (summary resume) (lit ""))
               then mkPen "Helvetica" 10 body_color else pen1).
  set (pen3 := if truthy (dict_get (skills resume) [])
               then mkPen "Helvetica" 10 body_color else pen2).
  destruct (Hexp pen3) as [pen4 Hexp4].
  destruct (Hedu pen4) as [pen5 Hedu5].
  exists pen5.
  eapply draws_conseq.
  - eapply draws_bind; [apply draws_draw_name|intros _].
    eapply draws_bind; [apply draws_draw_contacts|intros _].
    eapply draws_bind; [apply (Hsummary pen1)|intros _].
    eapply draws_bind; [apply (Hskills pen2)|intros _].
    eapply draws_bind; [apply Hexp4|intros _].
    eapply draws_bind; [apply Hedu5|intros _].
    apply draws_call.
  - unfold rendered. cbv zeta. cbn [canvas_step fst snd].
    rewrite app_nil_r. reflexivity.
  - reflexivity.
  - unfold page_used. cbv zeta. cbn [canvas_step fst snd].
    change (lit "") with (@nil char). lia.
Qed.

Lemma generate_pdf_primitives (gs : bool) (letter : Z * Z) (resume : Resume)
    (filepath : str) (pen0 : Pen) :
  fst (scan pen0 (calls (c (generate_pdf gs letter resume filepath)))) =
  rendered gs resume.
Proof.
  unfold generate_pdf. destruct letter as [width height].
  destruct (draws_generate_pdf_body pen0 gs resume) as [pen' H].
  destruct (H (mkLayout (height - 40) [] (mkCanvas filepath (width, height) []))
              [] eq_refl) as [Hs _].
  cbv zeta. rewrite Hs. reflexivity.
Qed.

(** X13: what a rendered resume shows, whatever pen the fresh canvas
    has: the name, the contact lines, and for each non-empty section its
    heading, its divider and its content, each text in the font, size and
    colour of its role, sections and entries in their fixed order. *)
Theorem generate_pdf_shows (GRADIENT_SUPPORTED : bool) (letter : Z * Z)
    (resume : Resume) (filepath : str) (pen0 : Pen) :
  primitives pen0
    (calls (c (generate_pdf GRADIENT_SUPPORTED letter resume filepath))) =
  rendered GRADIENT_SUPPORTED resume.
Proof. apply generate_pdf_primitives. Qed.

(** X14: the cursor ends at [height - 40] less the height of what was
    rendered: 28 for the name, 14 per contact line and a gap of 12, and
    for each non-empty section 17 for its header, its content and a gap
    of 12, where a wrapped line takes 12 and an entry 14 + 12 + its
    description + 8. *)
Theorem generate_pdf_final_cursor (GRADIENT_SUPPORTED : bool)
    (letter : Z * Z) (resume : Resume) (filepath : str) :
  y (generate_pdf GRADIENT_SUPPORTED letter resume filepath) =
  snd letter - 40 - page_used resume.
Proof.
  unfold generate_pdf. destruct letter as [width height].
  destruct (draws_generate_pdf_body (mkPen "Helvetica" 12 colors_black)
              GRADIENT_SUPPORTED resume) as [pen' H].
  destruct (H (mkLayout (height - 40) [] (mkCanvas filepath (width, height) []))
              [] eq_refl) as [_ Hy].
  cbv zeta. rewrite Hy. reflexivity.
Qed.

(** ** Where the strings are drawn *)

Lemma baselines_app (ks1 ks2 : list canvas_call) :
  baselines (ks1 ++ ks2) = baselines ks1 ++ baselines ks2.
Proof.
  induction ks1 as [|k ks1 IH]; [reflexivity|].
  destruct k; simpl; rewrite IH; reflexivity.
Qed.

Lemma sorted_below_snoc (l : list Z) (v : Z) :
  Sorted (fun a b => b < a) l ->
  Forall (fun b => v < b) l ->
  Sorted (fun a b => b < a) (l ++ [v]).
Proof.
  induction 1 as [|x l Hs IH Hhd]; intros Hall; simpl.
  - repeat constructor.
  - inversion Hall as [|? ? Hx Hl]; subst.
    constructor; [apply IH; exact Hl|].
    destruct l; simpl; constructor; [exact Hx|].
    inversion Hhd; assumption.
Qed.

Lemma triple_seq {A B : Type} (P Q R : Layout -> Prop) (m : M A) (k : M B) :
  triple P m Q -> triple Q k R -> triple P (m ;; k) R.
Proof. intros Hm Hk st HP. rewrite exec_seq. auto. Qed.

Lemma triple_ret {A : Type} (P : Layout -> Prop) (a : A) : triple P (ret a) P.
Proof. intros st HP. exact HP. Qed.

Lemma triple_when (P : Layout -> Prop) (b : bool) (body : M unit) :
  triple P body P -> triple P (when b body) P.
Proof. intros H. destruct b; [exact H|apply triple_ret]. Qed.

Lemma triple_for_each {A : Type} (P : Layout -> Prop) (items : list A)
    (body : A -> M unit) :
  (forall x, triple P (body x) P) -> triple P (for_each items body) P.
Proof.
  intros Hb. induction items as [|x items IH]; cbn [for_each].
  - apply triple_ret.
  - apply triple_seq with P; auto.
Qed.

(** A call that draws no string leaves the strings and the cursor as
    they are. *)
Lemma clear_call (k : canvas_call) :
  baselines [k] = [] -> triple clear (call k) clear.
Proof.
  intros Hk st [Hs Hall]. unfold clear. cbn.
  rewrite baselines_app, Hk, app_nil_r. split; assumption.
Qed.

Lemma clear_sub_y (amount : Z) : 0 <= amount -> triple clear (sub_y amount) clear.
Proof.
  intros Hpos st [Hs Hall]. unfold clear. cbn. split; [exact Hs|].
  eapply Forall_impl; [|exact Hall]. cbn. intros b Hb. lia.
Qed.

(** Drawing at the cursor and then lowering it keeps every string on
    its own baseline. *)
Lemma clear_draw {B : Type} (Q : Layout -> Prop) (x amount : Z) (text : str)
    (rest : M B) :
  0 < amount ->
  triple clear rest Q ->
  triple clear
    (y0 <- get_y ;; call (drawString x y0 text) ;; sub_y amount ;; rest) Q.
Proof.
  intros Hpos Hrest st [Hs Hall].
  rewrite exec_bind. cbn [get_y fst snd]. rewrite !exec_seq.
  apply Hrest. unfold clear. cbn.
  rewrite baselines_app. cbn [baselines]. split.
  - apply sorted_below_snoc; assumption.
  - apply Forall_app. split.
    + eapply Forall_impl; [|exact Hall]. cbn. intros b Hb. lia.
    + constructor; [lia|constructor].
Qed.

Lemma clear_draw_last (x amount : Z) (text : str) :
  0 < amount ->
  triple clear (y0 <- get_y ;; call (drawString x y0 text) ;; sub_y amount)
    clear.
Proof.
  intros Hpos st Hc.
  pose proof (clear_draw clear x amount text (ret tt) Hpos
                (triple_ret clear tt) st Hc) as H.
  rewrite exec_bind in H |- *. cbn [get_y fst snd] in H |- *.
  rewrite !exec_seq in H. rewrite exec_seq. exact H.
Qed.

Lemma clear_add_section_header (gs : bool) (title : str) :
  triple clear (add_section_header gs title) clear.
Proof.
  intros st [Hs Hall]. rewrite add_section_header_exec. unfold clear.
  cbn [y c].
  assert (E : baselines
                (calls (snd (draw_gradient_line gs (heading_canvas title st)
                               (y st - 4) 500 3))) =
              baselines (calls (c st)) ++ [y st]).
  { destruct gs; cbn; rewrite !baselines_app; cbn; rewrite ?app_nil_r;
      reflexivity. }
  rewrite E. split.
  - apply sorted_below_snoc; assumption.
  - apply Forall_app. split.
    + eapply Forall_impl; [|exact Hall]. cbn. intros b Hb. lia.
    + constructor; [lia|constructor].
Qed.

Ltac clear_steps :=
  repeat lazymatch goal with
    | |- triple clear (add_section_header _ _) clear =>
        apply clear_add_section_header
    | |- triple clear (sub_y _) clear => apply clear_sub_y; lia
    | |- triple clear (call _) clear => apply clear_call; reflexivity
    | |- triple clear (ret _) clear => apply triple_ret
    | |- triple clear (when _ _) clear => apply triple_when
    | |- triple clear (for_each _ _) clear => apply triple_for_each; intros ?
    | |- triple clear (bind get_y (fun _ => bind _ (fun _ => sub_y _))) clear =>
        apply clear_draw_last; lia
    | |- triple clear (bind get_y _) clear => apply clear_draw; [lia|]
    | |- triple clear (bind _ _) clear => apply triple_seq with clear
    end.

Lemma clear_draw_wrapped (text : str) : triple clear (draw_wrapped text) clear.
Proof. unfold draw_wrapped. clear_steps. Qed.

Lemma clear_draw_entry (title dates desc : str) :
  triple clear (draw_entry title dates desc) clear.
Proof. unfold draw_entry, draw_wrapped. clear_steps. Qed.

Lemma clear_generate_pdf_body (gs : bool) (resume : Resume) :
  triple clear (generate_pdf_body gs resume) clear.
Proof.
  unfold generate_pdf_body, draw_name, draw_contacts, summary_section,
    skills_section, experience_section, education_section,
    experience_entry, education_entry, draw_wrapped.
  cbv zeta. clear_steps; apply clear_draw_entry.
Qed.

Lemma generate_pdf_sorted (gs : bool) (letter : Z * Z) (resume : Resume)
    (filepath : str) :
  Sorted (fun a b => b < a)
    (baselines (calls (c (generate_pdf gs letter resume filepath)))).
Proof.
  unfold generate_pdf. destruct letter as [width height]. cbv zeta.
  apply (clear_generate_pdf_body gs resume). split; constructor.
Qed.

Lemma generate_pdf_first_baseline (gs : bool) (letter : Z * Z)
    (resume : Resume) (filepath : str) :
  exists rest,
    baselines (calls (c (generate_pdf gs letter resume filepath))) =
    (snd letter - 40) :: rest.
Proof.
  unfold generate_pdf. destruct letter as [width height]. cbv zeta.
  cbn [snd].
  set (st0 := mkLayout (height - 40) []
                (mkCanvas filepath (width, height) [])).
  unfold generate_pdf_body. rewrite exec_seq.
  match goal with
  | |- context [exec ?k (exec (draw_name resume) st0)] =>
      assert (Hk : orderly k) by orderly;
      destruct (Hk (exec (draw_name resume) st0)) as [[ks Hks] _]
  end.
  rewrite Hks, baselines_app. eexists. reflexivity.
Qed.

(** X15: the name is drawn on the baseline [height - 40]; every later
    string is drawn strictly below the string before it, and the cursor
    ends strictly below all of them. *)
Theorem generate_pdf_baselines (GRADIENT_SUPPORTED : bool) (letter : Z * Z)
    (resume : Resume) (filepath : str) :
  let st := generate_pdf GRADIENT_SUPPORTED letter resume filepath in
  (exists rest, baselines (calls (c st)) = (snd letter - 40) :: rest) /\
  Sorted (fun a b => b < a) (baselines (calls (c st))) /\
  Forall (fun b => y st < b) (baselines (calls (c st))).
Proof.
  cbv zeta. split; [apply generate_pdf_first_baseline|].
  unfold generate_pdf. destruct letter as [width height]. cbv zeta.
  apply (clear_generate_pdf_body GRADIENT_SUPPORTED resume). split; constructor.
Qed.

(** ** No new page *)

Lemma baselines_length (ks : list canvas_call) (pen : Pen) :
  List.length (baselines ks) =
  List.length (filter is_text (fst (scan pen ks))).
Proof.
  revert pen. induction ks as [|k ks IH]; intros pen; [reflexivity|].
  cbn [scan].
  destruct k; cbn [canvas_step baselines];
    match goal with
    | |- context [scan ?p ks] =>
        specialize (IH p); destruct (scan p ks) as [more pen2]
    end; cbn [fst] in *; rewrite filter_app, length_app, <- IH.
  - reflexivity.
  - reflexivity.
  - reflexivity.
  - destruct (fill =? 0); reflexivity.
  - induction (contents d) as [|r rs IHr]; [reflexivity|exact IHr].
  - reflexivity.
Qed.

Lemma sorted_strict_last (l : list Z) (h d : Z) :
  Sorted (fun a b => b < a) (h :: l) ->
  last (h :: l) d <= h - Z.of_nat (List.length l).
Proof.
  revert h. induction l as [|x l IH]; intros h Hs.
  - simpl. lia.
  - inversion Hs as [|? ? Hrest Hhd]; subst.
    inversion Hhd as [|? ? Hx]; subst.
    specialize (IH x Hrest).
    change (last (h :: x :: l) d) with (last (x :: l) d).
    cbn [List.length]. lia.
Qed.

Lemma last_In (l : list Z) (h d : Z) : In (last (h :: l) d) (h :: l).
Proof.
  revert h. induction l as [|x l IH]; intros h.
  - left. reflexivity.
  - right. apply IH.
Qed.

Lemma rendered_entries_texts (n : nat) :
  let exp := mkExperience None None None None None in
  List.length
    (filter is_text
       (flat_map
          (fun exp => rendered_entry (experience_title exp)
                        (experience_dates exp)
                        (dict_get (exp_description exp) []))
          (repeat exp n))) = (2 * n)%nat.
Proof.
  intros exp. induction n as [|n IH]; [reflexivity|].
  cbn [repeat flat_map]. rewrite filter_app, length_app, IH.
  cbn. lia.
Qed.

Lemma rendered_many_entries (gs : bool) (n : nat) :
  let exp := mkExperience None None None None None in
  List.length
    (filter is_text
       (rendered gs (mkResume None None None (Some (repeat exp (S n))) None))) =
  (2 + 2 * S n)%nat.
Proof.
  intros exp. unfold rendered. cbv zeta.
  cbn [personal summary skills experience education dict_get].
  rewrite !filter_app, !length_app.
  unfold rendered_section.
  change (truthy (repeat exp (S n))) with true.
  change (contact_lines empty_personal) with (@nil str).
  cbn [truthy map filter is_text List.length].
  rewrite filter_app, length_app.
  pose proof (rendered_entries_texts (S n)) as Hn. cbv zeta in Hn.
  fold exp in Hn. rewrite Hn.
  destruct gs; cbn [rendered_header rendered_divider filter is_text
                    List.length]; lia.
Qed.

(** X16: [generate_pdf] never starts a new page: for every page size
    there is a resume (one with enough experience entries) of which a
    string is drawn below the bottom edge of the page, at a negative
    baseline. *)
Theorem generate_pdf_runs_off_the_page (GRADIENT_SUPPORTED : bool)
    (letter : Z * Z) (filepath : str) :
  exists (resume : Resume) (b : Z),
    In b (baselines
            (calls (c (generate_pdf GRADIENT_SUPPORTED letter resume filepath))))
    /\ b < 0.
Proof.
  set (n := Z.to_nat (snd letter)).
  set (exp := mkExperience None None None None None).
  set (resume := mkResume None None None (Some (repeat exp (S n))) None).
  exists resume.
  pose proof (generate_pdf_sorted GRADIENT_SUPPORTED letter resume filepath)
    as Hsorted.
  pose proof (baselines_length
                (calls (c (generate_pdf GRADIENT_SUPPORTED letter resume
                             filepath)))
                (mkPen "Helvetica" 12 colors_black)) as Hlen.
  rewrite generate_pdf_primitives in Hlen.
  unfold resume in Hlen at 2. unfold exp in Hlen.
  rewrite (rendered_many_entries GRADIENT_SUPPORTED n) in Hlen.
  destruct (generate_pdf_first_baseline GRADIENT_SUPPORTED letter resume
              filepath) as [rest Hrest].
  rewrite Hrest in Hsorted, Hlen |- *.
  exists (last ((snd letter - 40) :: rest) 0).
  split; [apply last_In|].
  pose proof (sorted_strict_last rest (snd letter - 40) 0 Hsorted) as Hlast.
  cbn [List.length] in Hlen. unfold n in Hlen. lia.
Qed.

(** ** Lines without stray whitespace *)

Lemma join_snoc (sep x : str) (l : list str) :
  l <> [] -> join sep (l ++ [x]) = join sep l ++ sep ++ x.
Proof.
  induction l as [|a l IH]; intros Hne; [congruence|].
  destruct l as [|b l].
  - reflexivity.
  - change ((a :: b :: l) ++ [x]) with (a :: ((b :: l) ++ [x])).
    rewrite join_cons by (simpl; discriminate).
    rewrite IH by discriminate.
    rewrite (join_cons sep a) by discriminate.
    rewrite <- !app_assoc. reflexivity.
Qed.

Lemma split_text_loop_normal (max_width : Z) (words lines : list str)
    (current : str) :
  Forall token words ->
  Forall (fun l => join (lit " ") (split l) = l) lines ->
  join (lit " ") (split current) = current ->
  Forall (fun l => join (lit " ") (split l) = l)
    (split_text_flush
       (fold_left (split_text_step max_width) words (lines, current))).
Proof.
  revert lines current.
  induction words as [|word words IH]; intros lines current Hw Hl Hc;
    cbn [fold_left].
  - simpl. destruct (truthy current); auto.
    apply Forall_app. split; auto.
  - inversion Hw as [|? ? Hword Hwords]; subst.
    rewrite split_text_step_eq.
    destruct (len _ * 5 >? max_width).
    + apply IH; auto.
      * apply Forall_app. split; auto.
      * rewrite (split_token word Hword). reflexivity.
    + apply IH; auto.
      rewrite split_test_line by assumption.
      destruct current as [|x current].
      * simpl. reflexivity.
      * cbn [truthy].
        assert (Hne : split (x :: current) <> []).
        { intros E. rewrite E in Hc. discriminate Hc. }
        rewrite join_snoc by exact Hne. rewrite Hc. reflexivity.
Qed.

(** X17: every line of [split_text] is its own tokens joined by single
    spaces: no line starts or ends with whitespace or holds a whitespace
    code point other than single spaces between its tokens. *)
Theorem split_text_lines_normal (text : str) (max_width : Z) :
  Forall (fun l => join (lit " ") (split l) = l) (split_text text max_width).
Proof.
  unfold split_text. apply split_text_loop_normal.
  - apply split_tokens.
  - constructor.
  - reflexivity.
Qed.
